(** * httpcache: a policy-driven caching HTTP client

    A shallow embedding of the Go package [httpcache] (file
    [httpcache.go], current revision) together with the parts of the Go
    standard library its behaviour depends on: [strings], [time],
    [crypto/sha256] and [encoding/hex] are modelled from their Go
    sources; the regular-expression package, the entry codec of
    [github.com/liuzl/store], the file system and the HTTP transport are
    collaborators given by interfaces. *)

From Stdlib Require Import ZArith String Ascii List Lia Bool.
From Stdlib.Strings Require Import Byte.
From stdpp Require Import base gmap strings list.

Local Open Scope string_scope.
Local Open Scope Z_scope.

(** ** Errors

    Go's [error] values.  The constructors keep the origin of an error;
    message texts of the collaborators are opaque strings. *)

Inductive error : Type :=
| InvalidDuration (orig : string)      (* time: invalid duration "orig" *)
| MissingUnit (orig : string)          (* time: missing unit in duration "orig" *)
| UnknownUnit (u orig : string)        (* time: unknown unit "u" in duration "orig" *)
| RegexpError (msg : string)           (* regexp.Compile *)
| OSError (msg : string)               (* os.Open, bufio.Scanner *)
| NetError (msg : string)              (* http.NewRequest, client.Do, io.ReadAll *)
| StoreNotFound                        (* leveldb: not found *)
| StoreClosed                          (* leveldb: closed *)
| CodecError (msg : string)            (* store.ObjectToBytes / BytesToObject *)
| Errorf (format : string) (cause : error)   (* fmt.Errorf(format, err) *)
| ErrorfS (format : string) (arg : string).  (* fmt.Errorf(format, str) *)

Inductive result (A : Type) : Type :=
| Ok (a : A)
| Err (e : error).
Arguments Ok {A} a.
Arguments Err {A} e.

(** ** Package strings *)

Module GoStrings.

Definition byte_of (n : nat) : ascii := ascii_of_nat n.

Fixpoint of_codes (l : list nat) : string :=
  match l with
  | [] => EmptyString
  | n :: l' => String (byte_of n) (of_codes l')
  end.

Fixpoint rev_acc (s acc : string) : string :=
  match s with
  | EmptyString => acc
  | String c s' => rev_acc s' (String c acc)
  end.

Definition rev (s : string) : string := rev_acc s EmptyString.

(** [strings.HasPrefix(s, prefix)] *)
Fixpoint HasPrefix (s prefix : string) : bool :=
  match prefix with
  | EmptyString => true
  | String p prefix' =>
      match s with
      | EmptyString => false
      | String c s' => if Ascii.eqb c p then HasPrefix s' prefix' else false
      end
  end.

Fixpoint indexFrom (s substr : string) (i : Z) : Z :=
  if HasPrefix s substr then i
  else match s with
       | EmptyString => -1
       | String _ s' => indexFrom s' substr (i + 1)
       end.

(** [strings.Index(s, substr)]: first occurrence, or -1. *)
Definition Index (s substr : string) : Z := indexFrom s substr 0.

Fixpoint lastIndexFrom (s substr : string) (i best : Z) : Z :=
  let best' := if HasPrefix s substr then i else best in
  match s with
  | EmptyString => best'
  | String _ s' => lastIndexFrom s' substr (i + 1) best'
  end.

(** [strings.LastIndex(s, substr)]: last occurrence, or -1. *)
Definition LastIndex (s substr : string) : Z := lastIndexFrom s substr 0 (-1).

(** The slice expressions [s[:i]] and [s[i:]]. *)
Fixpoint take (n : nat) (s : string) : string :=
  match n, s with
  | S n', String c s' => String c (take n' s')
  | _, _ => EmptyString
  end.

Fixpoint drop (n : nat) (s : string) : string :=
  match n, s with
  | S n', String _ s' => drop n' s'
  | _, _ => s
  end.

Definition slice_to (s : string) (i : Z) : string := take (Z.to_nat i) s.
Definition slice_from (s : string) (i : Z) : string := drop (Z.to_nat i) s.

(** UTF-8 encodings of the code points on which [unicode.IsSpace]
    holds: the six ASCII ones, U+0085, U+00A0, U+1680, U+2000..U+200A,
    U+2028, U+2029, U+202F, U+205F and U+3000. *)
Definition spaceRunes : list string :=
  map of_codes
    [ [9]; [10]; [11]; [12]; [13]; [32];
      [194; 133]; [194; 160]; [225; 154; 128];
      [226; 128; 128]; [226; 128; 129]; [226; 128; 130]; [226; 128; 131];
      [226; 128; 132]; [226; 128; 133]; [226; 128; 134]; [226; 128; 135];
      [226; 128; 136]; [226; 128; 137]; [226; 128; 138];
      [226; 128; 168]; [226; 128; 169]; [226; 128; 175];
      [226; 129; 159]; [227; 128; 128] ]%nat.

(** Length of the space rune [s] starts with, if any. *)
Fixpoint leadingSpace (runes : list string) (s : string) : option nat :=
  match runes with
  | [] => None
  | r :: runes' =>
      if HasPrefix s r then Some (String.length r) else leadingSpace runes' s
  end.

Fixpoint trimLeftSpaces (fuel : nat) (runes : list string) (s : string) : string :=
  match fuel with
  | O => s
  | S fuel' =>
      match leadingSpace runes s with
      | Some n => trimLeftSpaces fuel' runes (drop n s)
      | None => s
      end
  end.

(** [strings.TrimLeftFunc(s, unicode.IsSpace)]; every step removes at
    least one byte, so [length s] steps are enough. *)
Definition TrimLeftSpace (s : string) : string :=
  trimLeftSpaces (String.length s) spaceRunes s.

(** [strings.TrimRightFunc(s, unicode.IsSpace)], on the reversed
    string: [DecodeLastRuneInString] accepts exactly the encodings
    that end the string. *)
Definition TrimRightSpace (s : string) : string :=
  rev (trimLeftSpaces (String.length s) (map rev spaceRunes) (rev s)).

(** [strings.TrimSpace(s)] *)
Definition TrimSpace (s : string) : string := TrimRightSpace (TrimLeftSpace s).

End GoStrings.

(** ** Package time: durations and instants *)

Module GoTime.

(** [time.Duration] is an [int64] count of nanoseconds. *)
Definition Duration := Z.

Definition Nanosecond : Duration := 1.
Definition Microsecond : Duration := 1000 * Nanosecond.
Definition Millisecond : Duration := 1000 * Microsecond.
Definition Second : Duration := 1000 * Millisecond.
Definition Minute : Duration := 60 * Second.
Definition Hour : Duration := 60 * Minute.

Definition minDuration : Duration := - 2 ^ 63.
Definition maxDuration : Duration := 2 ^ 63 - 1.

(** Conversions to [uint64] and [int64]: wrap-around. *)
Definition uint64 (x : Z) : Z := x mod 2 ^ 64.
Definition int64 (x : Z) : Z := (x + 2 ^ 63) mod 2 ^ 64 - 2 ^ 63.

(** An instant [time.Time], as the count of nanoseconds since the zero
    time (January 1, year 1, 00:00:00 UTC). *)
Definition Time := Z.

Definition IsZero (t : Time) : bool := t =? 0.
Definition After (t u : Time) : bool := t >? u.
Definition Add (t : Time) (d : Duration) : Time := t + d.

(** [t.Sub(u)]: the duration t-u, saturated to the range of [Duration]. *)
Definition Sub (t u : Time) : Duration :=
  if t - u <? minDuration then minDuration
  else if t - u >? maxDuration then maxDuration
  else t - u.

Definition isDigit (c : ascii) : bool :=
  let n := Z.of_nat (nat_of_ascii c) in (48 <=? n) && (n <=? 57).

Definition digitVal (c : ascii) : Z := Z.of_nat (nat_of_ascii c) - 48.

(** [leadingInt]: consumes the leading [0-9]* of [s]; [None] is
    [errLeadingInt] (overflow).  [x] is the value read so far. *)
Fixpoint leadingInt (s : string) (x : Z) : option (Z * string) :=
  match s with
  | EmptyString => Some (x, s)
  | String c s' =>
      if isDigit c then
        if x >? 2 ^ 63 / 10 then None
        else
          let x' := uint64 (x * 10 + digitVal c) in
          if x' >? 2 ^ 63 then None else leadingInt s' x'
      else Some (x, s)
  end.

(** [leadingFraction]: consumes the leading [0-9]* of [s] and returns
    the digits read as an integer, the power of ten they are scaled
    by, and the rest; digits past the overflow point are dropped. *)
Fixpoint leadingFraction (s : string) (x scale : Z) (overflow : bool)
  : Z * Z * string :=
  match s with
  | EmptyString => (x, scale, s)
  | String c s' =>
      if isDigit c then
        if overflow then leadingFraction s' x scale true
        else if x >? (2 ^ 63 - 1) / 10 then leadingFraction s' x scale true
        else
          let y := uint64 (x * 10 + digitVal c) in
          if y >? 2 ^ 63 then leadingFraction s' x scale true
          else leadingFraction s' y (scale * 10) false
      else (x, scale, s)
  end.

(** The unit: the longest prefix without ['.'] and digits. *)
Fixpoint unitSpan (s : string) : string * string :=
  match s with
  | EmptyString => (EmptyString, EmptyString)
  | String c s' =>
      if Ascii.eqb c "."%char || isDigit c then (EmptyString, s)
      else let '(u, rest) := unitSpan s' in (String c u, rest)
  end.

(** [unitMap] *)
Definition unitMap (u : string) : option Z :=
  if String.eqb u "ns" then Some Nanosecond
  else if String.eqb u "us" then Some Microsecond
  else if String.eqb u (GoStrings.of_codes [194; 181; 115]%nat) then Some Microsecond
  else if String.eqb u (GoStrings.of_codes [206; 188; 115]%nat) then Some Microsecond
  else if String.eqb u "ms" then Some Millisecond
  else if String.eqb u "s" then Some Second
  else if String.eqb u "m" then Some Minute
  else if String.eqb u "h" then Some Hour
  else None.

(** The one floating-point step of [ParseDuration],
    [float64(f) * (float64(unit) / scale)], is left to an interface. *)
Class Float64 := { fracNanos : Z -> Z -> Z -> Z }.

Section Parse.
Context `{Float64}.

(** One round of the loop [for s != ""] of [ParseDuration]: reads
    one number with its unit and adds it to [d].  The result is the
    new total and the rest of the input. *)
Definition parseTerm (orig s : string) (d : Z) : result (Z * string) :=
  match s with
  | EmptyString => Err (InvalidDuration orig)
  | String c0 _ =>
      if negb (Ascii.eqb c0 "."%char || isDigit c0) then Err (InvalidDuration orig)
      else
        match leadingInt s 0 with
        | None => Err (InvalidDuration orig)
        | Some (v, s1) =>
            let pre := negb (String.length s =? String.length s1)%nat in
            let '(f, scale, s2, post) :=
              match s1 with
              | String c1 s1' =>
                  if Ascii.eqb c1 "."%char then
                    let '(f, scale, s2) := leadingFraction s1' 0 1 false in
                    (f, scale, s2, negb (String.length s1' =? String.length s2)%nat)
                  else (0, 1, s1, false)
              | EmptyString => (0, 1, s1, false)
              end in
            if negb pre && negb post then Err (InvalidDuration orig)
            else
              let '(u, s3) := unitSpan s2 in
              if String.eqb u EmptyString then Err (MissingUnit orig)
              else
                match unitMap u with
                | None => Err (UnknownUnit u orig)
                | Some unit =>
                    if v >? 2 ^ 63 / unit then Err (InvalidDuration orig)
                    else
                      let v1 := uint64 (v * unit) in
                      let v2 :=
                        if f >? 0 then uint64 (v1 + uint64 (fracNanos f scale unit))
                        else v1 in
                      if (f >? 0) && (v2 >? 2 ^ 63) then Err (InvalidDuration orig)
                      else
                        let d' := uint64 (d + v2) in
                        if d' >? 2 ^ 63 then Err (InvalidDuration orig)
                        else Ok (d', s3)
                end
        end
  end.

(** The loop; [None] when [fuel] rounds did not reach the end of the
    input (which [String.length s] rounds always do). *)
Fixpoint parseLoop (fuel : nat) (orig s : string) (d : Z) : option (result Z) :=
  match s with
  | EmptyString => Some (Ok d)
  | _ =>
      match fuel with
      | O => None
      | S fuel' =>
          match parseTerm orig s d with
          | Err e => Some (Err e)
          | Ok (d', s') => parseLoop fuel' orig s' d'
          end
      end
  end.

(** [time.ParseDuration(s)] *)
Definition ParseDuration (orig : string) : result Duration :=
  let '(neg, s) :=
    match orig with
    | String c s' =>
        if Ascii.eqb c "-"%char || Ascii.eqb c "+"%char
        then (Ascii.eqb c "-"%char, s')
        else (false, orig)
    | EmptyString => (false, orig)
    end in
  if String.eqb s "0" then Ok 0
  else if String.eqb s EmptyString then Err (InvalidDuration orig)
  else
    match parseLoop (String.length s) orig s 0 with
    | None => Err (InvalidDuration orig)
    | Some (Err e) => Err e
    | Some (Ok d) =>
        if neg then Ok (int64 (- int64 d))
        else if d >? 2 ^ 63 - 1 then Err (InvalidDuration orig)
        else Ok (int64 d)
    end.

End Parse.

End GoTime.

(** ** Packages crypto/sha256 and encoding/hex *)

Module Sha256.

Definition w32 (x : Z) : Z := x mod 2 ^ 32.

(** [bits.RotateLeft32(x, -n)]: rotation to the right by [n]. *)
Definition rotr (n x : Z) : Z :=
  Z.lor (Z.shiftr x n) (w32 (Z.shiftl x (32 - n))).

Definition xor3 (a b c : Z) : Z := Z.lxor (Z.lxor a b) c.

(** The table [_K] of sha256block.go, by its definition: the first 32
    bits of the fractional parts of the cube roots of the first 64
    primes. *)
Definition is_prime (n : Z) : bool :=
  forallb (fun d => negb (n mod d =? 0)) (seqZ 2 (n - 2)).

Fixpoint root_bits (k n : Z) (bits : nat) (acc : Z) : Z :=
  match bits with
  | O => acc
  | S b =>
      let c := acc + 2 ^ Z.of_nat b in
      root_bits k n b (if c ^ k <=? n then c else acc)
  end.

(** The first 32 bits of the fractional part of the [k]-th root of [p]. *)
Definition frac_root (k p : Z) : Z := root_bits k (p * 2 ^ (32 * k)) 40 0 mod 2 ^ 32.

Definition _K : list Z := map (frac_root 3) (filter (fun n => is_prime n = true) (seqZ 2 310)).

(** Big-endian bytes of a [k]-byte word, and back. *)
Fixpoint be_bytes (k : nat) (x : Z) : list Z :=
  match k with
  | O => []
  | S k' => Z.land (Z.shiftr x (8 * Z.of_nat k')) 255 :: be_bytes k' x
  end.

Definition be_word (bs : list Z) : Z :=
  fold_left (fun acc b => Z.lor (Z.shiftl acc 8) b) bs 0.

(** The sixteen message words [w[0..15]] of a 64-byte chunk. *)
Fixpoint chunk_words (k : nat) (p : list Z) : list Z :=
  match k with
  | O => []
  | S k' => be_word (firstn 4 p) :: chunk_words k' (skipn 4 p)
  end.

(** The words [w[16..]]: [k] more words after the [w] given. *)
Fixpoint extend (k : nat) (w : list Z) : list Z :=
  match k with
  | O => w
  | S k' =>
      let i := length w in
      let v1 := nth (i - 2) w 0 in
      let t1 := xor3 (rotr 17 v1) (rotr 19 v1) (Z.shiftr v1 10) in
      let v2 := nth (i - 15) w 0 in
      let t2 := xor3 (rotr 7 v2) (rotr 18 v2) (Z.shiftr v2 3) in
      extend k' (w ++ [w32 (t1 + nth (i - 7) w 0 + t2 + nth (i - 16) w 0)])
  end.

Record regs := Regs { ra : Z; rb : Z; rc : Z; rd : Z; re : Z; rf : Z; rg : Z; rh : Z }.

Definition round (r : regs) (kw : Z * Z) : regs :=
  let '(Regs a b c d e f g h) := r in
  let t1 := w32 (h + xor3 (rotr 6 e) (rotr 11 e) (rotr 25 e)
                 + Z.lxor (Z.land e f) (Z.land (w32 (Z.lnot e)) g)
                 + fst kw + snd kw) in
  let t2 := w32 (xor3 (rotr 2 a) (rotr 13 a) (rotr 22 a)
                 + xor3 (Z.land a b) (Z.land a c) (Z.land b c)) in
  Regs (w32 (t1 + t2)) a b c (w32 (d + t1)) e f g.

(** [blockGeneric] on one chunk. *)
Definition block (h : regs) (p : list Z) : regs :=
  let w := extend 48 (chunk_words 16 p) in
  let '(Regs a b c d e f g h') := fold_left round (combine _K w) h in
  Regs (w32 (ra h + a)) (w32 (rb h + b)) (w32 (rc h + c)) (w32 (rd h + d))
       (w32 (re h + e)) (w32 (rf h + f)) (w32 (rg h + g)) (w32 (rh h + h')).

Fixpoint blocks (n : nat) (h : regs) (p : list Z) : regs :=
  match n with
  | O => h
  | S n' => blocks n' (block h (firstn 64 p)) (skipn 64 p)
  end.

(** The padding written by [checkSum]: 0x80, zeros up to 56 mod 64,
    and the length in bits as a 64-bit big-endian word. *)
Definition pad (msg : list Z) : list Z :=
  let len := Z.of_nat (length msg) in
  let zeros := Z.to_nat ((55 - len) mod 64) in
  msg ++ [128] ++ repeat 0 zeros ++ be_bytes 8 (len * 8 mod 2 ^ 64).

(** [sha256.Sum256(data)] *)
Definition Sum256 (data : list Z) : list Z :=
  let p := pad data in
  let '(Regs a b c d e f g h) :=
    blocks (length p / 64)
           (Regs 0x6a09e667 0xbb67ae85 0x3c6ef372 0xa54ff53a
                 0x510e527f 0x9b05688c 0x1f83d9ab 0x5be0cd19) p in
  flat_map (be_bytes 4) [a; b; c; d; e; f; g; h].

End Sha256.

Module Hex.

Definition hextable : string := "0123456789abcdef".

Definition digit (n : Z) : ascii :=
  match String.get (Z.to_nat n) hextable with
  | Some c => c
  | None => "0"%char
  end.

(** [hex.EncodeToString(src)] *)
Fixpoint EncodeToString (src : list Z) : string :=
  match src with
  | [] => EmptyString
  | v :: src' =>
      String (digit (Z.shiftr v 4)) (String (digit (Z.land v 15)) (EncodeToString src'))
  end.

End Hex.

(** The conversion [[]byte(s)]. *)
Fixpoint bytes_of_string (s : string) : list Z :=
  match s with
  | EmptyString => []
  | String c s' => Z.of_nat (nat_of_ascii c) :: bytes_of_string s'
  end.

(** ** Collaborators *)

Definition bytes := list Z.

Import GoTime.

(** [CacheEntry] *)
Record CacheEntry := mkEntry {
  Data : bytes;
  URL : string;
  FinalURL : string;
  CrawledAt : Time;
  ExpiresAt : Time
}.

(** Package regexp: compiled expressions, [regexp.Compile],
    [Regexp.MatchString], and the value of [regexp.MustCompile(".*")]. *)
Class RegexpLib := {
  Regexp : Type;
  Compile : string -> result Regexp;
  MatchString : Regexp -> string -> bool;
  catchAll : Regexp
}.

(** [store.ObjectToBytes] and [store.BytesToObject] at type [CacheEntry]. *)
Class Codec := {
  ObjectToBytes : CacheEntry -> result bytes;
  BytesToObject : bytes -> result CacheEntry
}.

(** What [os.Open] and the [bufio.Scanner] over the file deliver: the
    lines scanned, in order, and the scanner's final error, if any. *)
Inductive OpenResult : Type :=
| NotExist
| OpenFailed (e : error)
| Opened (lines : list string) (scanErr : option error).

(** The outbound fetch [http.NewRequest; client.Do; io.ReadAll] ends in
    one of four ways.  [RequestError] is the failure of
    [http.NewRequest], which rejects the URL before anything is sent;
    the other three come from the call [client.Do] and the reading of
    its response. *)
Inductive FetchOutcome : Type :=
| RequestError (err : error)
| DoError (err : error)
| ReadError (finalURL : string) (err : error)
| Fetched (finalURL : string) (body : bytes).

(** The network as seen from one call: the outcome of fetching a URL and
    the time the fetch takes. *)
Record Transport := {
  respond : string -> FetchOutcome;
  latency : string -> Duration
}.

(** [store.LevelStore]: the key-value pairs, and whether [Close] was
    called. *)
Record LevelStore := mkStore {
  data : gmap string bytes;
  closed : bool
}.

(** Calls to the collaborators, in the order they are made. *)
Inductive Event : Type :=
| EvGet (key : string)
| EvPut (key : string) (value : bytes)
| EvDelete (key : string)
| EvFetch (url : string).

Record World := mkWorld {
  store : LevelStore;
  clock : Time;
  trace : list Event
}.

(** ** State passing *)

Definition M (A : Type) : Type := World -> A * World.

Definition ret {A} (a : A) : M A := fun w => (a, w).

Definition bind {A B} (m : M A) (k : A -> M B) : M B :=
  fun w => let '(a, w') := m w in k a w'.

Notation "x <- c ;; k" := (bind c (fun x => k))
  (at level 100, c at next level, right associativity).
Notation "c ;;; k" := (bind c (fun _ => k))
  (at level 100, right associativity).

Definition emit (e : Event) : M unit :=
  fun w => (tt, mkWorld (store w) (clock w) (trace w ++ [e])%list).

Definition Now : M Time := fun w => (clock w, w).

Definition elapse (d : Duration) : M unit :=
  fun w => (tt, mkWorld (store w) (clock w + d) (trace w)).

Definition set_data (f : gmap string bytes -> gmap string bytes) : M unit :=
  fun w => (tt, mkWorld (mkStore (f (data (store w))) (closed (store w)))
                        (clock w) (trace w)).

Definition is_closed : M bool := fun w => (closed (store w), w).

Definition lookup_data (key : string) : M (option bytes) :=
  fun w => (data (store w) !! key, w).

(** The methods [Get], [Put] and [Delete] of [LevelStore] *)
Definition Store_Get (key : string) : M (option bytes * option error) :=
  emit (EvGet key) ;;;
  c <- is_closed ;;
  if c then ret (None, Some StoreClosed)
  else
    v <- lookup_data key ;;
    match v with
    | Some value => ret (Some value, None)
    | None => ret (None, Some StoreNotFound)
    end.

Definition Store_Put (key : string) (value : bytes) : M (option error) :=
  emit (EvPut key value) ;;;
  c <- is_closed ;;
  if c then ret (Some StoreClosed)
  else set_data (insert key value) ;;; ret None.

Definition Store_Delete (key : string) : M (option error) :=
  emit (EvDelete key) ;;;
  c <- is_closed ;;
  if c then ret (Some StoreClosed)
  else set_data (delete key) ;;; ret None.

(** The error of an outcome, if it is one. *)
Definition outcome_error (o : FetchOutcome) : option error :=
  match o with
  | RequestError err | DoError err | ReadError _ err => Some err
  | Fetched _ _ => None
  end.

(** The outbound fetch of [url].  When [http.NewRequest] fails the
    callers return before [client.Do]: nothing goes out to the network
    and no time passes.  Otherwise [client.Do] is called, which is the
    event [EvFetch], and takes the transport's time. *)
Definition fetch (tr : Transport) (url : string) : M FetchOutcome :=
  match respond tr url with
  | RequestError err => ret (RequestError err)
  | out => emit (EvFetch url) ;;; elapse (latency tr url) ;;; ret out
  end.

(** Does [http.NewRequest] accept the URL, so that the request goes
    out? *)
Definition requestBuilt (tr : Transport) (url : string) : bool :=
  match respond tr url with
  | RequestError _ => false
  | _ => true
  end.

(** What a fetch of [url] adds to the trace and to the clock. *)
Definition fetchEvents (tr : Transport) (url : string) : list Event :=
  if requestBuilt tr url then [EvFetch url] else [].

Definition fetchTime (tr : Transport) (url : string) : Duration :=
  if requestBuilt tr url then latency tr url else 0.

(** ** Package httpcache *)

Section Httpcache.
Context `{Float64} `{RegexpLib} `{Codec}.

Record CachePolicy := mkPolicy {
  Pattern : Regexp;
  TTL : Duration
}.

(** [Cache] and [HTTPClient]; the store the [Store] field points to
    is the one of the [World]. *)
Record Cache := mkCache { Policies : list CachePolicy }.
Record HTTPClient := mkClient { cache : Cache }.

Definition ContentValidator := option (bytes -> bool).

Definition defaultPolicy : CachePolicy := mkPolicy catchAll (10 * Minute).

(** What the first half of the loop body of [LoadPoliciesFromFile]
    makes of one scanned line. *)
Inductive LineFields : Type :=
| Skipped
| NoSeparator (line : string)
| Fields (pattern duration : string).

Definition splitLine (text : string) : LineFields :=
  let line := GoStrings.TrimSpace text in
  if String.eqb line EmptyString || GoStrings.HasPrefix line "#" then Skipped
  else
    let line :=
      let idx := GoStrings.Index line "#" in
      if negb (idx =? -1) then GoStrings.TrimSpace (GoStrings.slice_to line idx)
      else line in
    let idx := GoStrings.LastIndex line "=" in
    if idx =? -1 then NoSeparator line
    else Fields (GoStrings.TrimSpace (GoStrings.slice_to line idx))
                (GoStrings.TrimSpace (GoStrings.slice_from line (idx + 1))).

(** The loop [for scanner.Scan()] with the policies read so far. *)
Fixpoint scanPolicies (lines : list string) (policies : list CachePolicy)
  : result (list CachePolicy) :=
  match lines with
  | [] => Ok policies
  | text :: lines' =>
      match splitLine text with
      | Skipped => scanPolicies lines' policies
      | NoSeparator line => Err (ErrorfS "invalid policy format: %s" line)
      | Fields pattern duration =>
          match Compile pattern with
          | Err err => Err (Errorf "invalid regex pattern: %s" err)
          | Ok compiledPattern =>
              match ParseDuration duration with
              | Err err => Err (Errorf "invalid duration: %s" err)
              | Ok parsedDuration =>
                  scanPolicies lines'
                    (policies ++ [mkPolicy compiledPattern parsedDuration])%list
              end
          end
      end
  end.

(** [LoadPoliciesFromFile(filename)], with the file system [fs]. *)
Definition LoadPoliciesFromFile (fs : string -> OpenResult) (filename : string)
  : result (list CachePolicy) :=
  if String.eqb filename EmptyString then Ok [defaultPolicy]
  else
    match fs filename with
    | NotExist => Ok [defaultPolicy]
    | OpenFailed err => Err (Errorf "failed to open policies file: %v" err)
    | Opened lines scanErr =>
        match scanPolicies lines [] with
        | Err e => Err e
        | Ok policies =>
            match scanErr with
            | Some err => Err (Errorf "error reading policies file: %v" err)
            | None => Ok (policies ++ [defaultPolicy])%list
            end
        end
    end.

Fixpoint firstMatchTTL (policies : list CachePolicy) (url : string) : Duration :=
  match policies with
  | [] => 0
  | policy :: rest =>
      if MatchString (Pattern policy) url then TTL policy
      else firstMatchTTL rest url
  end.

(** [(c *Cache) GetTTL(url)] *)
Definition GetTTL (c : Cache) (url : string) : Duration :=
  firstMatchTTL (Policies c) url.

(** [hashKey(url)] *)
Definition hashKey (url : string) : string :=
  Hex.EncodeToString (Sha256.Sum256 (bytes_of_string url)).

(** The expiry test in the middle of [Cache.Get]. *)
Definition isExpired (c : Cache) (now : Time) (entry : CacheEntry) : bool :=
  if negb (IsZero (CrawledAt entry)) then
    let ttl := GetTTL c (URL entry) in
    if Sub now (CrawledAt entry) >? ttl then true else false
  else After now (ExpiresAt entry).

(** [(c *Cache) Get(key)] *)
Definition Cache_Get (c : Cache) (key : string) : M (bytes * string * bool) :=
  r <- Store_Get key ;;
  match r with
  | (Some value, None) =>
      match BytesToObject value with
      | Err _ => ret ([], EmptyString, false)
      | Ok entry =>
          now <- Now ;;
          if isExpired c now entry then
            Store_Delete key ;;; ret ([], EmptyString, false)
          else ret (Data entry, FinalURL entry, true)
      end
  | _ => ret ([], EmptyString, false)
  end.

(** [(c *Cache) Set(key, data, url, finalURL, ttl)] *)
Definition Cache_Set (key : string) (data : bytes) (url finalURL : string)
    (ttl : Duration) : M unit :=
  now <- Now ;;
  let entry := mkEntry data url finalURL now (Add now ttl) in
  match ObjectToBytes entry with
  | Err _ => ret tt
  | Ok encoded => Store_Put key encoded ;;; ret tt
  end.

(** No read of [key] finds an entry in the store [st]: it is closed,
    or has nothing under the key, or what it has does not decode. *)
Definition unreadable (st : LevelStore) (key : string) : Prop :=
  closed st = true \/
  data st !! key = None \/
  (exists value e, data st !! key = Some value /\ BytesToObject value = Err e).

(** [(c *Cache) Delete(key)] *)
Definition Cache_Delete (key : string) : M (option error) := Store_Delete key.

Definition accepts (validator : ContentValidator) (value : bytes) : bool :=
  match validator with
  | None => true
  | Some v => v value
  end.

(** [(hc *HTTPClient) GetWithValidator(url, validator)], in its two
    parts.  First the block [if ttl > 0 { ... }]: the cached value and
    final URL when the function returns from there. *)
Definition cachedValue (hc : HTTPClient) (key : string) (ttl : Duration)
    (validator : ContentValidator) : M (option (bytes * string)) :=
  if ttl >? 0 then
    r <- Cache_Get (cache hc) key ;;
    let '(value, finalURL, found) := r in
    if found then
      if accepts validator value then ret (Some (value, finalURL))
      else Cache_Delete key ;;; ret None
    else ret None
  else ret None.

(** Then the rest, from [http.NewRequest] on. *)
Definition fetchFresh (tr : Transport) (url key : string) (ttl : Duration)
    (validator : ContentValidator) : M (bytes * string * option error) :=
  out <- fetch tr url ;;
  match out with
  | RequestError err => ret ([], EmptyString, Some err)
  | DoError err => ret ([], EmptyString, Some err)
  | ReadError finalURL err => ret ([], finalURL, Some err)
  | Fetched finalURL body =>
      let shouldCache := accepts validator body in
      (if shouldCache && (ttl >? 0)
       then Cache_Set key body url finalURL ttl else ret tt) ;;;
      ret (body, finalURL, None)
  end.

Definition GetWithValidator (hc : HTTPClient) (tr : Transport) (url : string)
    (validator : ContentValidator) : M (bytes * string * option error) :=
  let key := hashKey url in
  let ttl := GetTTL (cache hc) url in
  hit <- cachedValue hc key ttl validator ;;
  match hit with
  | Some (value, finalURL) => ret (value, finalURL, None)
  | None => fetchFresh tr url key ttl validator
  end.

(** [(hc *HTTPClient) Get(url)] *)
Definition Get (hc : HTTPClient) (tr : Transport) (url : string)
  : M (bytes * option error) :=
  r <- GetWithValidator hc tr url None ;;
  let '(data, _, err) := r in ret (data, err).

(** [(hc *HTTPClient) GetWithFinalURL(url)] *)
Definition GetWithFinalURL (hc : HTTPClient) (tr : Transport) (url : string)
  : M (bytes * string * option error) :=
  GetWithValidator hc tr url None.

(** [(hc *HTTPClient) Fetch(url, validator)] *)
Definition Fetch (hc : HTTPClient) (tr : Transport) (url : string)
    (validator : ContentValidator) : M (bytes * option error) :=
  out <- fetch tr url ;;
  match out with
  | RequestError err => ret ([], Some err)
  | DoError err => ret ([], Some err)
  | ReadError _ err => ret ([], Some err)
  | Fetched _ body =>
      let ttl := GetTTL (cache hc) url in
      (if ttl >? 0 then
         let shouldCache := accepts validator body in
         if shouldCache then
           let key := hashKey url in
           Cache_Set key body url EmptyString ttl
         else ret tt
       else ret tt) ;;;
      ret (body, None)
  end.

(** [(hc *HTTPClient) DeleteURL(url)] *)
Definition DeleteURL (url : string) : M (option error) :=
  let key := hashKey url in Cache_Delete key.

(** [(hc *HTTPClient) FetchWithFinalURL(url)] *)
Definition FetchWithFinalURL (hc : HTTPClient) (tr : Transport) (url : string)
  : M (bytes * string * option error) :=
  out <- fetch tr url ;;
  match out with
  | RequestError err => ret ([], EmptyString, Some err)
  | DoError err => ret ([], EmptyString, Some err)
  | ReadError finalURL err => ret ([], finalURL, Some err)
  | Fetched finalURL body =>
      let ttl := GetTTL (cache hc) url in
      (if ttl >? 0 then
         let key := hashKey url in
         Cache_Set key body url finalURL ttl
       else ret tt) ;;;
      ret (body, finalURL, None)
  end.

(** [NewClient(cacheDir, policies)]; [newLevelStore] is
    [store.NewLevelStore] on the machine's file system.  The result
    is the client together with the store it opened. *)
Definition NewClient (newLevelStore : string -> result LevelStore)
    (cacheDir : string) (policies : list CachePolicy)
  : result (HTTPClient * LevelStore) :=
  if String.eqb cacheDir EmptyString
  then Err (ErrorfS "cache directory is required" EmptyString)
  else
    match newLevelStore (String.append cacheDir "/data") with
    | Err err => Err (Errorf "failed to initialize cache: %+v" err)
    | Ok st => Ok (mkClient (mkCache policies), st)
    end.

End Httpcache.

(** ** A concrete set of collaborators

    Small implementations of the interfaces above, on which the package
    can be run: a matcher for the fragment of the regular-expression
    syntax made of literal bytes, escapes, [.] and [*]; a length-prefixed
    binary codec for entries; exact arithmetic for the fraction step. *)

Module Demo.

Inductive re : Type :=
| Empty                      (* matches nothing *)
| Eps                        (* matches the empty string *)
| Chr (c : ascii)
| Dot                        (* any byte but newline *)
| Cat (r1 r2 : re)
| Alt (r1 r2 : re)
| Star (r : re).

Fixpoint nullable (r : re) : bool :=
  match r with
  | Empty | Chr _ | Dot => false
  | Eps | Star _ => true
  | Cat r1 r2 => nullable r1 && nullable r2
  | Alt r1 r2 => nullable r1 || nullable r2
  end.

Fixpoint deriv (c : ascii) (r : re) : re :=
  match r with
  | Empty | Eps => Empty
  | Chr d => if Ascii.eqb c d then Eps else Empty
  | Dot => if Ascii.eqb c (ascii_of_nat 10) then Empty else Eps
  | Cat r1 r2 =>
      if nullable r1 then Alt (Cat (deriv c r1) r2) (deriv c r2)
      else Cat (deriv c r1) r2
  | Alt r1 r2 => Alt (deriv c r1) (deriv c r2)
  | Star r1 => Cat (deriv c r1) (Star r1)
  end.

(** Does [r] match some prefix of [s]? *)
Fixpoint matchPrefix (r : re) (s : string) : bool :=
  nullable r ||
  match s with
  | EmptyString => false
  | String c s' => matchPrefix (deriv c r) s'
  end.

(** Does [r] match some substring of [s]? *)
Fixpoint matchString (r : re) (s : string) : bool :=
  matchPrefix r s ||
  match s with
  | EmptyString => false
  | String _ s' => matchString r s'
  end.

Definition isMeta (c : ascii) : bool :=
  existsb (Ascii.eqb c)
    [ "("; ")"; "["; "]"; "{"; "}"; "|"; "+"; "?"; "^"; "$" ]%char.

Definition push (acc : re) (last : option re) : re :=
  match last with
  | Some a => Cat acc a
  | None => acc
  end.

(** The parser: [acc] is the expression read so far without its last
    atom [last], to which a following [*] applies; [esc] says that the
    previous byte was a backslash. *)
Fixpoint parse (s : string) (acc : re) (last : option re) (esc : bool) : result re :=
  match s with
  | EmptyString =>
      if esc then Err (RegexpError "trailing backslash at end of expression")
      else Ok (push acc last)
  | String c s' =>
      if esc then parse s' (push acc last) (Some (Chr c)) false
      else if Ascii.eqb c "\"%char then parse s' acc last true
      else if Ascii.eqb c "*"%char then
        match last with
        | Some a => parse s' (Cat acc (Star a)) None false
        | None => Err (RegexpError "missing argument to repetition operator")
        end
      else if Ascii.eqb c "."%char then parse s' (push acc last) (Some Dot) false
      else if isMeta c then Err (RegexpError "operator outside the fragment")
      else parse s' (push acc last) (Some (Chr c)) false
  end.

Definition compile (pattern : string) : result re := parse pattern Eps None false.

Definition regexpLib : RegexpLib := {|
  Regexp := re;
  Compile := compile;
  MatchString := matchString;
  catchAll := Cat Eps (Star Dot)
|}.

Definition float64 : Float64 := {| fracNanos f scale unit := f * unit / scale |}.

Fixpoint string_of_bytes (l : bytes) : string :=
  match l with
  | [] => EmptyString
  | b :: l' => String (ascii_of_nat (Z.to_nat (b mod 256))) (string_of_bytes l')
  end.

(** The codec.  A byte string is written as its length on 4 bytes and
    its bytes; an instant as a sign byte and 12 bytes of magnitude. *)
Definition put_bytes (l : bytes) : bytes :=
  (Sha256.be_bytes 4 (Z.of_nat (length l)) ++ l)%list.

Definition put_time (t : Time) : bytes :=
  ((if t <? 0 then 1 else 0) :: Sha256.be_bytes 12 (Z.abs t))%list.

Definition get_bytes (l : bytes) : option (bytes * bytes) :=
  if (length l <? 4)%nat then None
  else
    let n := Sha256.be_word (firstn 4 l) in
    let rest := skipn 4 l in
    if Z.of_nat (length rest) <? n then None
    else Some (firstn (Z.to_nat n) rest, skipn (Z.to_nat n) rest).

Definition get_time (l : bytes) : option (Time * bytes) :=
  match l with
  | sign :: rest =>
      if (length rest <? 12)%nat then None
      else
        let m := Sha256.be_word (firstn 12 rest) in
        Some (if sign =? 1 then - m else m, skipn 12 rest)
  | [] => None
  end.

Definition encode (e : CacheEntry) : result bytes :=
  if (2 ^ 32 <=? Z.of_nat (length (Data e)))
     || (2 ^ 32 <=? Z.of_nat (String.length (URL e)))
     || (2 ^ 32 <=? Z.of_nat (String.length (FinalURL e)))
     || (2 ^ 96 <=? Z.abs (CrawledAt e)) || (2 ^ 96 <=? Z.abs (ExpiresAt e))
  then Err (CodecError "value out of range")
  else Ok (put_bytes (Data e) ++ put_bytes (bytes_of_string (URL e))
           ++ put_bytes (bytes_of_string (FinalURL e))
           ++ put_time (CrawledAt e) ++ put_time (ExpiresAt e))%list.

Definition decode (l : bytes) : result CacheEntry :=
  match get_bytes l with
  | Some (d, l1) =>
      match get_bytes l1 with
      | Some (u, l2) =>
          match get_bytes l2 with
          | Some (f, l3) =>
              match get_time l3 with
              | Some (c, l4) =>
                  match get_time l4 with
                  | Some (x, []) =>
                      Ok (mkEntry d (string_of_bytes u) (string_of_bytes f) c x)
                  | _ => Err (CodecError "malformed entry")
                  end
              | None => Err (CodecError "malformed entry")
              end
          | None => Err (CodecError "malformed entry")
          end
      | None => Err (CodecError "malformed entry")
      end
  | None => Err (CodecError "malformed entry")
  end.

Definition codec : Codec := {| ObjectToBytes := encode; BytesToObject := decode |}.

(** A policy file and a server to run the package on. *)
Definition policyLines : list string :=
  [ EmptyString; "# Test policy file"; ".*\.example\.com=5m"; ".*\.test\.com=1s" ].

Definition fs (filename : string) : OpenResult :=
  if String.eqb filename "policies.txt" then Opened policyLines None
  else NotExist.

(** [stringContainsCTLByte] of package net/url: [url.Parse], and with
    it [http.NewRequest], rejects a URL that has an ASCII control
    byte. *)
Fixpoint stringContainsCTLByte (s : string) : bool :=
  match s with
  | EmptyString => false
  | String c s' =>
      let b := nat_of_ascii c in
      if (b <? 32)%nat || (b =? 127)%nat then true
      else stringContainsCTLByte s'
  end.

Definition invalidControl : error :=
  NetError "net/url: invalid control character in URL".

Definition server (body : string) : Transport := {|
  respond url :=
    if stringContainsCTLByte url then RequestError invalidControl
    else if GoStrings.HasPrefix url "http://"
    then Fetched url (bytes_of_string body)
    else DoError (NetError "unsupported protocol scheme");
  latency _ := 20 * Millisecond
|}.

Definition emptyWorld (now : Time) : World := mkWorld (mkStore ∅ false) now [].

(** A server that cannot be reached. *)
Definition down : Transport := {|
  respond url :=
    if stringContainsCTLByte url then RequestError invalidControl
    else DoError (NetError "connection refused");
  latency _ := 3 * Second
|}.

#[local] Existing Instances regexpLib float64 codec.

(** The client over the policies of the file above. *)
Definition policies : list CachePolicy :=
  match LoadPoliciesFromFile fs "policies.txt" with
  | Ok ps => ps
  | Err _ => []
  end.

Definition client : HTTPClient := mkClient (mkCache policies).

Definition url : string := "http://api.example.com/x".

(** Some instant of the year 2026, and the world after a first [Get]
    of [url] at that instant from an empty store. *)
Definition t0 : Time := 63900000000 * Second.

Definition warm : World :=
  snd (GetWithValidator client (server "hello") url None (emptyWorld t0)).

(** The entry that first call wrote, and its encoding. *)
Definition entry : CacheEntry :=
  let now := t0 + 20 * Millisecond in
  mkEntry (bytes_of_string "hello") url url now (now + 5 * Minute).

Definition value : bytes :=
  match encode entry with
  | Ok v => v
  | Err _ => []
  end.

Definition rejectAll : ContentValidator := Some (fun _ => false).

(** The entry that a [Fetch] of [url] at the instant of [warm] writes
    over the one of the first call, when the server says [fresh]. *)
Definition fetched : CacheEntry :=
  let now := t0 + 40 * Millisecond in
  mkEntry (bytes_of_string "fresh") url EmptyString now (now + 5 * Minute).

Definition fetchedValue : bytes :=
  match encode fetched with
  | Ok v => v
  | Err _ => []
  end.

(** The same URL as a line of a file, with its line feed. *)
Definition urlLine : string :=
  String.append url (String (ascii_of_nat 10) EmptyString).

(** The instant ten minutes after the first call: the entry it wrote
    is past the five minutes of its policy. *)
Definition stale : World :=
  mkWorld (store warm) (t0 + 10 * Minute) (trace warm).

(** Policies that keep every page for the longest duration there is,
    and a store whose entry for [url] was written in the year 1. *)
Definition keepLines : list string := [ ".*=9223372036854775807ns" ].

Definition keepPolicies : list CachePolicy :=
  match LoadPoliciesFromFile (fun _ => Opened keepLines None) "keep.txt" with
  | Ok ps => ps
  | Err _ => []
  end.

Definition oldEntry : CacheEntry :=
  mkEntry (bytes_of_string "hello") url url (1 * Second) (2 * Second).

Definition oldValue : bytes :=
  match encode oldEntry with
  | Ok v => v
  | Err _ => []
  end.

Definition old : World :=
  mkWorld (mkStore (<[hashKey url := oldValue]> ∅) false) t0 [].

End Demo.

(** ** The singleton client: [GetClient] and [Close] *)

(** A call returns, or [log.Fatalf] ends the process. *)
Inductive Outcome (A : Type) : Type :=
| Returned (a : A)
| Fatal (format : string) (err : option error).
Arguments Returned {A} a.
Arguments Fatal {A} format err.

Section Lifecycle.
Context `{Float64} `{RegexpLib}.

(** The flags [cache_dir] and [policies_file]. *)
Record Flags := mkFlags {
  cacheDir : string;
  policiesFile : string
}.

(** The package variables [instance] and [once]; [once_done] tells
    whether [once.Do] has already run its function.  Callers are taken
    one after the other. *)
Record Globals := mkGlobals {
  instance : option HTTPClient;
  once_done : bool
}.

(** [GetClient()].  The store the new client points to becomes the
    store of the world. *)
Definition GetClient (flags : Flags) (fs : string -> OpenResult)
    (newLevelStore : string -> result LevelStore) (g : Globals) (w : World)
  : Outcome (HTTPClient * Globals * World) :=
  let initialised :=
    if once_done g then Returned (g, w)
    else
      match LoadPoliciesFromFile fs (policiesFile flags) with
      | Err err => Fatal "Failed to load cache policies: %v" (Some err)
      | Ok policies =>
          match newLevelStore (String.append (cacheDir flags) "/data") with
          | Err err => Fatal "Failed to initialize cache: %v" (Some err)
          | Ok st =>
              Returned (mkGlobals (Some (mkClient (mkCache policies))) true,
                        mkWorld st (clock w) (trace w))
          end
      end in
  match initialised with
  | Fatal format err => Fatal format err
  | Returned (g', w') =>
      match instance g' with
      | None => Fatal "Failed to initialize HTTPClient" None
      | Some hc => Returned (hc, g', w')
      end
  end.

(** [Close] of [LevelStore]. *)
Definition Store_Close : M (option error) :=
  c <- is_closed ;;
  if c then ret (Some StoreClosed)
  else fun w => (None, mkWorld (mkStore (data (store w)) true) (clock w) (trace w)).

(** [(hc *HTTPClient) Close()] *)
Definition Close (g : Globals) : M Globals :=
  Store_Close ;;; ret (mkGlobals None false).

End Lifecycle.

(** ** The inspection tool cmd/httpcache-info *)

(** The test that ends [main]: [time.Now().After(entry.ExpiresAt)]. *)
Definition infoExpired (now : Time) (entry : CacheEntry) : bool :=
  After now (ExpiresAt entry).

(** * Properties *)

(** ** Durations *)

Section DurationFacts.
Context `{Float64}.

Lemma uint64_nonneg (x : Z) : 0 <= uint64 x.
Proof. unfold uint64. apply Z.mod_pos_bound. lia. Qed.

Lemma int64_small (x : Z) : 0 <= x <= 2 ^ 63 - 1 -> int64 x = x.
Proof.
  intros Hx. unfold int64.
  rewrite Z.mod_small by lia. lia.
Qed.

Lemma leadingInt_length (s : string) :
  forall x v r, leadingInt s x = Some (v, r) ->
                (String.length r <= String.length s)%nat.
Proof.
  induction s as [|c s IH]; intros x v r Hl; simpl in Hl.
  - inversion Hl; subst. simpl. lia.
  - destruct (isDigit c).
    + destruct (x >? 2 ^ 63 / 10); [discriminate|].
      destruct (uint64 (x * 10 + digitVal c) >? 2 ^ 63); [discriminate|].
      apply IH in Hl. simpl. lia.
    + inversion Hl; subst. simpl. lia.
Qed.

Lemma leadingFraction_length (s : string) :
  forall x scale o f sc r, leadingFraction s x scale o = (f, sc, r) ->
                           (String.length r <= String.length s)%nat.
Proof.
  induction s as [|c s IH]; intros x scale o f sc r Hl; simpl in Hl.
  - inversion Hl; subst. simpl. lia.
  - destruct (isDigit c).
    + assert (String.length r <= String.length s)%nat; [|simpl; lia].
      destruct o; [eapply IH; eassumption|].
      destruct (x >? (2 ^ 63 - 1) / 10); [eapply IH; eassumption|].
      destruct (uint64 (x * 10 + digitVal c) >? 2 ^ 63); eapply IH; eassumption.
    + inversion Hl; subst. simpl. lia.
Qed.

Lemma unitSpan_length (s : string) :
  forall u r, unitSpan s = (u, r) ->
              String.length s = (String.length u + String.length r)%nat.
Proof.
  induction s as [|c s IH]; intros u r Hu; simpl in Hu.
  - inversion Hu; subst. reflexivity.
  - destruct (Ascii.eqb c "." || isDigit c).
    + inversion Hu; subst. reflexivity.
    + destruct (unitSpan s) as [u' r'] eqn:E. inversion Hu; subst.
      simpl. f_equal. apply IH. reflexivity.
Qed.

(** A round of the loop reads at least one byte and leaves a total
    that is a [uint64]. *)
Lemma parseTerm_ok (orig s : string) (d d' : Z) (s' : string) :
  parseTerm orig s d = Ok (d', s') ->
  (String.length s' < String.length s)%nat /\ 0 <= d'.
Proof.
  unfold parseTerm. destruct s as [|c0 s0]; [discriminate|].
  destruct (negb (Ascii.eqb c0 "." || isDigit c0)); [discriminate|].
  destruct (leadingInt (String c0 s0) 0) as [[v s1]|] eqn:Hint; [|discriminate].
  apply leadingInt_length in Hint.
  set (pre := negb (String.length (String c0 s0) =? String.length s1)%nat).
  assert (Hfrac : forall f scale s2 post,
    match s1 with
    | String c1 s1' =>
        if Ascii.eqb c1 "."
        then let '(f, scale, s2) := leadingFraction s1' 0 1 false in
             (f, scale, s2, negb (String.length s1' =? String.length s2)%nat)
        else (0, 1, s1, false)
    | EmptyString => (0, 1, s1, false)
    end = (f, scale, s2, post) ->
    (String.length s2 <= String.length s1)%nat).
  { intros f scale s2 post Hm. destruct s1 as [|c1 s1'].
    - inversion Hm; subst. lia.
    - destruct (Ascii.eqb c1 ".").
      + destruct (leadingFraction s1' 0 1 false) as [[f' sc'] r'] eqn:Hf.
        inversion Hm; subst. apply leadingFraction_length in Hf. simpl. lia.
      + inversion Hm; subst. lia. }
  destruct (match s1 with
            | String c1 s1' => _
            | EmptyString => _
            end) as [[[f scale] s2] post].
  pose proof (Hfrac _ _ _ _ eq_refl) as Hm. clear Hfrac.
  destruct (negb pre && negb post); [discriminate|].
  destruct (unitSpan s2) as [u s3] eqn:Hu. apply unitSpan_length in Hu.
  destruct (String.eqb u EmptyString) eqn:Hue; [discriminate|].
  destruct (unitMap u) as [unit|]; [|discriminate].
  destruct (v >? 2 ^ 63 / unit); [discriminate|].
  match goal with |- context [if ?b then Err _ else _] => destruct b end; [discriminate|].
  match goal with |- context [if ?b then Err _ else _] => destruct b end; [discriminate|].
  intros Hok. inversion Hok; subst. split; [|apply uint64_nonneg].
  destruct u as [|cu u']; [discriminate|]. simpl in *. lia.
Qed.

(** [String.length s] rounds are enough for the loop. *)
Lemma parseLoop_fuel (fuel : nat) :
  forall orig s d, (String.length s <= fuel)%nat -> parseLoop fuel orig s d <> None.
Proof.
  induction fuel as [|fuel IH]; intros orig s d Hlen.
  - destruct s; simpl in *; [discriminate | lia].
  - destruct s as [|c s0]; [discriminate|].
    cbn [parseLoop].
    destruct (parseTerm orig (String c s0) d) as [[d' s']|e] eqn:Ht; [|discriminate].
    apply parseTerm_ok in Ht. apply IH. lia.
Qed.

Lemma parseLoop_nonneg (fuel : nat) :
  forall orig s d d', 0 <= d -> parseLoop fuel orig s d = Some (Ok d') -> 0 <= d'.
Proof.
  induction fuel as [|fuel IH]; intros orig s d d' Hd Hl.
  - destruct s; simpl in Hl; [|discriminate]. inversion Hl; subst. exact Hd.
  - destruct s as [|c s0]; [inversion Hl; subst; exact Hd|].
    cbn [parseLoop] in Hl.
    destruct (parseTerm orig (String c s0) d) as [[d1 s1]|e] eqn:Ht; [|discriminate].
    apply parseTerm_ok in Ht. eapply IH; [|eassumption]. lia.
Qed.

(** A duration text without a leading minus sign never parses to a
    negative duration. *)
Lemma ParseDuration_unsigned_nonneg (s : string) (d : Duration) :
  GoStrings.HasPrefix s "-" = false -> ParseDuration s = Ok d -> 0 <= d.
Proof.
  unfold ParseDuration. intros Hpre.
  assert (Hneg : exists s1,
    match s with
    | String c s' =>
        if Ascii.eqb c "-" || Ascii.eqb c "+" then (Ascii.eqb c "-", s') else (false, s)
    | EmptyString => (false, s)
    end = (false, s1)).
  { destruct s as [|c s']; [eexists; reflexivity|].
    cbn [GoStrings.HasPrefix] in Hpre. destruct (Ascii.eqb c "-") eqn:Hc.
    - destruct s'; discriminate Hpre.
    - cbn [orb]. destruct (Ascii.eqb c "+"); eexists; reflexivity. }
  destruct Hneg as [s1 Hs1]. rewrite Hs1.
  destruct (String.eqb s1 "0"); [intros Hok; inversion Hok; lia|].
  destruct (String.eqb s1 EmptyString); [discriminate|].
  destruct (parseLoop (String.length s1) s s1 0) as [[d0|e]|] eqn:Hl; try discriminate.
  apply parseLoop_nonneg in Hl; [|lia].
  destruct (d0 >? 2 ^ 63 - 1) eqn:Hgt; [discriminate|].
  intros Hok. inversion Hok; subst. rewrite int64_small; lia.
Qed.

(** The unit [d] is not in [unitMap]. *)
Lemma ParseDuration_day : ParseDuration "1d" = Err (UnknownUnit "d" "1d").
Proof. reflexivity. Qed.

End DurationFacts.

(** ** Policy loading and TTL resolution *)

Section PolicyFacts.
Context `{Float64} `{RegexpLib}.

(** The scanning loop only ever appends to the policies read so far. *)
Lemma scanPolicies_extends (lines : list string) :
  forall acc policies,
    scanPolicies lines acc = Ok policies ->
    exists extra, policies = (acc ++ extra)%list.
Proof.
  induction lines as [|text lines IH]; intros acc policies Hs; simpl in Hs.
  - inversion Hs; subst. exists []. symmetry. apply app_nil_r.
  - destruct (splitLine text) as [|line|pattern duration]; [eauto|discriminate|].
    destruct (Compile pattern) as [re|e]; [|discriminate].
    destruct (ParseDuration duration) as [d|e]; [|discriminate].
    apply IH in Hs. destruct Hs as [extra ->].
    exists ({| Pattern := re; TTL := d |} :: extra).
    rewrite <- app_assoc. reflexivity.
Qed.

(** Every successful load ends with the default policy. *)
Lemma LoadPoliciesFromFile_default_last fs filename policies :
  LoadPoliciesFromFile fs filename = Ok policies ->
  exists explicit, policies = (explicit ++ [defaultPolicy])%list.
Proof.
  unfold LoadPoliciesFromFile.
  destruct (String.eqb filename EmptyString).
  - intros Hok. inversion Hok. exists []. reflexivity.
  - destruct (fs filename) as [|e|lines scanErr].
    + intros Hok. inversion Hok. exists []. reflexivity.
    + discriminate.
    + destruct (scanPolicies lines []) as [ps|e]; [|discriminate].
      destruct scanErr; [discriminate|].
      intros Hok. inversion Hok. exists ps. reflexivity.
Qed.

(** [GetTTL] is first-match-wins over any list with a matching policy. *)
Lemma firstMatchTTL_first (policies : list CachePolicy) (url : string) :
  (exists p, p ∈ policies /\ MatchString (Pattern p) url = true) ->
  exists (i : nat) (p : CachePolicy),
    policies !! i = Some p /\
    MatchString (Pattern p) url = true /\
    (forall (j : nat) (q : CachePolicy),
        (j < i)%nat -> policies !! j = Some q -> MatchString (Pattern q) url = false) /\
    firstMatchTTL policies url = TTL p.
Proof.
  induction policies as [|p0 ps IH]; intros [p [Hin Hm]].
  - inversion Hin.
  - simpl. destruct (MatchString (Pattern p0) url) eqn:Hp0.
    + exists 0%nat, p0. repeat split; auto. intros j q Hj. lia.
    + destruct IH as (i & q & Hi & Hq & Hbefore & Httl).
      { exists p. split; [|exact Hm].
        apply elem_of_cons in Hin. destruct Hin as [->|Hin]; [congruence|exact Hin]. }
      exists (S i), q. repeat split; auto.
      intros j q' Hj Hlook. destruct j as [|j]; simpl in Hlook.
      * inversion Hlook; subst. exact Hp0.
      * eapply Hbefore; [|exact Hlook]. lia.
Qed.

(** Without any matching policy [GetTTL] falls back to zero. *)
Lemma firstMatchTTL_none (policies : list CachePolicy) (url : string) :
  Forall (fun p => MatchString (Pattern p) url = false) policies ->
  firstMatchTTL policies url = 0.
Proof.
  induction 1 as [|p ps Hp _ IH]; simpl; [reflexivity|].
  rewrite Hp. exact IH.
Qed.

(** C3. For every URL string, the empty one included, and every policy
    list produced by [LoadPoliciesFromFile], [GetTTL] returns the TTL
    of the first policy in list order whose expression matches the
    URL; such a policy always exists, because the list ends with the
    catch-all default policy.  The fact about the regular-expression
    library used is that the expression [.*] matches every string. *)
Theorem GetTTL_loaded_first_match :
  (forall s, MatchString catchAll s = true) ->
  forall (fs : string -> OpenResult) (filename : string)
         (policies : list CachePolicy) (url : string),
    LoadPoliciesFromFile fs filename = Ok policies ->
    (exists explicit, policies = (explicit ++ [defaultPolicy])%list) /\
    exists (i : nat) (p : CachePolicy),
      policies !! i = Some p /\
      MatchString (Pattern p) url = true /\
      (forall (j : nat) (q : CachePolicy),
          (j < i)%nat -> policies !! j = Some q ->
          MatchString (Pattern q) url = false) /\
      GetTTL (mkCache policies) url = TTL p.
Proof.
  intros Hall fs filename policies url Hload.
  pose proof (LoadPoliciesFromFile_default_last _ _ _ Hload) as [explicit ->].
  split; [eauto|].
  unfold GetTTL. simpl. apply firstMatchTTL_first.
  exists defaultPolicy. split; [|apply Hall].
  apply elem_of_app. right. apply list_elem_of_singleton. reflexivity.
Qed.

(** C4, at the policy line [.*=1d]. With a pattern the library
    compiles, loading a file with this single line does not succeed:
    it reports an invalid duration, the unit [d] being unknown to
    [time.ParseDuration]. *)
Theorem LoadPoliciesFromFile_day_unit :
  forall (fs : string -> OpenResult) (filename : string) (re : Regexp),
    filename <> EmptyString ->
    fs filename = Opened [".*=1d"] None ->
    Compile ".*" = Ok re ->
    LoadPoliciesFromFile fs filename
    = Err (Errorf "invalid duration: %s" (UnknownUnit "d" "1d")).
Proof.
  intros fs filename re Hname Hfs Hre. unfold LoadPoliciesFromFile.
  apply String.eqb_neq in Hname. rewrite Hname, Hfs.
  cbn [scanPolicies].
  replace (splitLine ".*=1d") with (Fields ".*" "1d") by (vm_compute; reflexivity).
  rewrite Hre, ParseDuration_day. reflexivity.
Qed.

Lemma scanPolicies_nonneg (lines : list string) :
  forall acc policies,
    Forall (fun text => forall p d, splitLine text = Fields p d ->
                                    GoStrings.HasPrefix d "-" = false) lines ->
    Forall (fun p => 0 <= TTL p) acc ->
    scanPolicies lines acc = Ok policies ->
    Forall (fun p => 0 <= TTL p) policies.
Proof.
  induction lines as [|text lines IH]; intros acc policies Hlines Hacc Hs;
    simpl in Hs.
  - inversion Hs; subst. exact Hacc.
  - inversion Hlines as [|? ? Htext Hrest]; subst.
    destruct (splitLine text) as [|line|pattern duration] eqn:Hsplit;
      [eauto|discriminate|].
    destruct (Compile pattern) as [re|e]; [|discriminate].
    destruct (ParseDuration duration) as [d|e] eqn:Hd; [|discriminate].
    eapply IH; [exact Hrest| |exact Hs].
    apply Forall_app. split; [exact Hacc|].
    constructor; [|constructor]. simpl.
    eapply ParseDuration_unsigned_nonneg; [|exact Hd]. eapply Htext. reflexivity.
Qed.

(** C7, as amended. For every policy file whose lines all load
    successfully and none of whose duration fields starts with a minus
    sign, no policy in the resulting list carries a negative
    duration. *)
Theorem LoadPoliciesFromFile_ttl_nonneg :
  forall (fs : string -> OpenResult) (filename : string)
         (policies : list CachePolicy),
    (forall lines scanErr,
        fs filename = Opened lines scanErr ->
        Forall (fun text => forall p d, splitLine text = Fields p d ->
                                        GoStrings.HasPrefix d "-" = false) lines) ->
    LoadPoliciesFromFile fs filename = Ok policies ->
    Forall (fun p => 0 <= TTL p) policies.
Proof.
  intros fs filename policies Hlines. unfold LoadPoliciesFromFile.
  assert (Hdef : Forall (fun p => 0 <= TTL p) [defaultPolicy]).
  { constructor; [|constructor]. simpl. unfold Minute, Second, Millisecond,
      Microsecond, Nanosecond. lia. }
  destruct (String.eqb filename EmptyString).
  - intros Hok. inversion Hok; subst. exact Hdef.
  - destruct (fs filename) as [|e|lines scanErr] eqn:Hfs.
    + intros Hok. inversion Hok; subst. exact Hdef.
    + discriminate.
    + destruct (scanPolicies lines []) as [ps|e] eqn:Hs; [|discriminate].
      destruct scanErr; [discriminate|].
      intros Hok. inversion Hok; subst.
      apply Forall_app. split; [|exact Hdef].
      eapply scanPolicies_nonneg; [|constructor|exact Hs].
      eapply Hlines. reflexivity.
Qed.

End PolicyFacts.

(** ** The cache and the client *)

Lemma Sub_exact (t u : Time) :
  minDuration <= t - u <= maxDuration -> Sub t u = t - u.
Proof.
  intros Hr. unfold Sub.
  destruct (Z.ltb_spec (t - u) minDuration); [lia|].
  destruct (t - u >? maxDuration) eqn:Hgt; [lia|reflexivity].
Qed.

(** Saturation does not show in the comparison with a TTL below the
    largest duration. *)
Lemma Sub_gt_exact (t u : Time) (ttl : Duration) :
  minDuration <= ttl < maxDuration -> (Sub t u > ttl <-> t - u > ttl).
Proof.
  unfold Sub, minDuration, maxDuration. intros Hr.
  destruct (Z.ltb_spec (t - u) (- 2 ^ 63)); [lia|].
  destruct (t - u >? 2 ^ 63 - 1) eqn:Hgt; lia.
Qed.

(** [Sub] is the difference cut to the range of a Duration. *)
Lemma Sub_clamp (t u : Time) :
  Sub t u = Z.max minDuration (Z.min maxDuration (t - u)).
Proof.
  unfold Sub, minDuration, maxDuration.
  destruct (Z.ltb_spec (t - u) (- 2 ^ 63)); [lia|].
  destruct (t - u >? 2 ^ 63 - 1) eqn:Hgt; lia.
Qed.

Ltac run :=
  unfold bind, ret, emit, Now, elapse, set_data, is_closed, lookup_data;
  cbn [store clock trace data closed fst snd].

Section ClientFacts.
Context `{RegexpLib} `{Codec}.

Lemma Store_Get_open (key : string) (w : World) (value : bytes) :
  closed (store w) = false ->
  data (store w) !! key = Some value ->
  Store_Get key w
  = ((Some value, None), mkWorld (store w) (clock w) (trace w ++ [EvGet key])).
Proof.
  destruct w as [[dat cl] now tr]. cbn [store data closed]. intros -> Hlook.
  unfold Store_Get. run. rewrite Hlook. reflexivity.
Qed.

Lemma Store_Delete_open (key : string) (w : World) :
  closed (store w) = false ->
  Store_Delete key w
  = (None, mkWorld (mkStore (delete key (data (store w))) false) (clock w)
                   (trace w ++ [EvDelete key])).
Proof.
  destruct w as [[dat cl] now tr]. cbn [store data closed]. intros ->.
  unfold Store_Delete. run. reflexivity.
Qed.

Lemma Cache_Get_expired (c : Cache) (key : string) (w : World)
      (value : bytes) (entry : CacheEntry) :
  closed (store w) = false ->
  data (store w) !! key = Some value ->
  BytesToObject value = Ok entry ->
  isExpired c (clock w) entry = true ->
  Cache_Get c key w
  = (([], EmptyString, false),
     mkWorld (mkStore (delete key (data (store w))) false) (clock w)
             (trace w ++ [EvGet key; EvDelete key])).
Proof.
  intros Hopen Hlook Hdec Hexp. unfold Cache_Get, bind at 1.
  rewrite (Store_Get_open _ _ _ Hopen Hlook), Hdec.
  unfold bind at 1, Now. cbn [clock]. rewrite Hexp.
  unfold bind at 1. rewrite Store_Delete_open by exact Hopen.
  cbn. rewrite <- app_assoc. reflexivity.
Qed.

Lemma Cache_Get_fresh (c : Cache) (key : string) (w : World)
      (value : bytes) (entry : CacheEntry) :
  closed (store w) = false ->
  data (store w) !! key = Some value ->
  BytesToObject value = Ok entry ->
  isExpired c (clock w) entry = false ->
  Cache_Get c key w
  = ((Data entry, FinalURL entry, true),
     mkWorld (store w) (clock w) (trace w ++ [EvGet key])).
Proof.
  intros Hopen Hlook Hdec Hfresh. unfold Cache_Get, bind at 1.
  rewrite (Store_Get_open _ _ _ Hopen Hlook), Hdec.
  unfold bind at 1, Now. cbn [clock]. rewrite Hfresh. reflexivity.
Qed.

(** A read that finds nothing usable leaves the store as it is: the
    store is closed, or has nothing under the key, or what it has
    does not decode. *)
Lemma Cache_Get_miss (c : Cache) (key : string) (w : World) :
  unreadable (store w) key ->
  Cache_Get c key w
  = (([], EmptyString, false),
     mkWorld (store w) (clock w) (trace w ++ [EvGet key])).
Proof.
  destruct w as [[dat cl] now tr]. unfold unreadable.
  cbn [store data closed clock trace].
  unfold Cache_Get, Store_Get. run.
  intros [-> | [Hnone | (value & e & Hlook & Hdec)]].
  - reflexivity.
  - destruct cl; [reflexivity|]. run. rewrite Hnone. reflexivity.
  - destruct cl; [reflexivity|]. run. rewrite Hlook, Hdec. reflexivity.
Qed.

(** The expiry test, read off the definition. *)
Lemma isExpired_crawled (c : Cache) (now : Time) (entry : CacheEntry) :
  CrawledAt entry <> 0 ->
  (isExpired c now entry = true
   <-> Sub now (CrawledAt entry) > GetTTL c (URL entry)).
Proof.
  intros Hnz. unfold isExpired, IsZero.
  destruct (Z.eqb_spec (CrawledAt entry) 0); [contradiction|]. cbn [negb].
  destruct (Z.gtb_spec (Sub now (CrawledAt entry)) (GetTTL c (URL entry)));
    split; (lia || discriminate || reflexivity).
Qed.

Lemma isExpired_legacy (c : Cache) (now : Time) (entry : CacheEntry) :
  CrawledAt entry = 0 ->
  (isExpired c now entry = true <-> now > ExpiresAt entry).
Proof.
  intros Hz. unfold isExpired, IsZero, After. rewrite Hz. cbn [Z.eqb negb].
  destruct (Z.gtb_spec now (ExpiresAt entry));
    split; (lia || discriminate || reflexivity).
Qed.

(** C2, amended.  On [Cache.Get], for an entry the store returns and
    the codec decodes.  With a non-zero [CrawledAt] the entry is
    expired exactly when the time since [CrawledAt], cut to the range
    of a Duration as [Time.Sub] cuts it, exceeds the TTL that the
    current policies give the entry's URL, whatever [ExpiresAt] says.
    For a TTL that is a Duration below the largest one, that is
    exactly when [now - CrawledAt > TTL]; with the largest Duration as
    TTL the entry never expires.  With a zero [CrawledAt] the entry is expired
    exactly when [now] is after [ExpiresAt].  An expired entry is
    deleted from the store and reported absent, any other entry is
    returned. *)
Theorem Cache_Get_expiry :
  forall (c : Cache) (key : string) (w : World) (value : bytes)
         (entry : CacheEntry),
    closed (store w) = false ->
    data (store w) !! key = Some value ->
    BytesToObject value = Ok entry ->
    let age := clock w - CrawledAt entry in
    let ttl := GetTTL c (URL entry) in
    (CrawledAt entry <> 0 ->
     (isExpired c (clock w) entry = true
      <-> Z.max minDuration (Z.min maxDuration age) > ttl) /\
     (minDuration <= ttl < maxDuration ->
      (isExpired c (clock w) entry = true <-> age > ttl)) /\
     (maxDuration <= ttl -> isExpired c (clock w) entry = false)) /\
    (CrawledAt entry = 0 ->
     (isExpired c (clock w) entry = true <-> clock w > ExpiresAt entry)) /\
    (isExpired c (clock w) entry = true ->
     Cache_Get c key w
     = (([], EmptyString, false),
        mkWorld (mkStore (delete key (data (store w))) false) (clock w)
                (trace w ++ [EvGet key; EvDelete key]))) /\
    (isExpired c (clock w) entry = false ->
     Cache_Get c key w
     = ((Data entry, FinalURL entry, true),
        mkWorld (store w) (clock w) (trace w ++ [EvGet key]))).
Proof.
  intros c key w value entry Hopen Hlook Hdec age ttl. subst age ttl.
  split; [|split; [|split]].
  - intros Hnz. pose proof (isExpired_crawled c (clock w) entry Hnz) as Hexp.
    split; [|split].
    + rewrite <- Sub_clamp. exact Hexp.
    + intros Hrange. rewrite Hexp. apply Sub_gt_exact. exact Hrange.
    + intros Hmax.
      destruct (isExpired c (clock w) entry) eqn:E; [|reflexivity].
      apply (isExpired_crawled c (clock w) entry Hnz) in E.
      rewrite Sub_clamp in E. unfold minDuration, maxDuration in *. lia.
  - apply isExpired_legacy.
  - intros Hexp. eapply Cache_Get_expired; eassumption.
  - intros Hfresh. eapply Cache_Get_fresh; eassumption.
Qed.

Lemma cachedValue_bypass hc key ttl validator (w : World) :
  ttl <= 0 -> cachedValue hc key ttl validator w = (None, w).
Proof.
  intros Httl. unfold cachedValue.
  destruct (Z.gtb_spec ttl 0); [lia|reflexivity].
Qed.

Lemma cachedValue_hit hc key ttl validator (w : World) value entry :
  ttl > 0 ->
  closed (store w) = false ->
  data (store w) !! key = Some value ->
  BytesToObject value = Ok entry ->
  isExpired (cache hc) (clock w) entry = false ->
  accepts validator (Data entry) = true ->
  cachedValue hc key ttl validator w
  = (Some (Data entry, FinalURL entry),
     mkWorld (store w) (clock w) (trace w ++ [EvGet key])).
Proof.
  intros Httl Hopen Hlook Hdec Hfresh Hacc. unfold cachedValue.
  destruct (Z.gtb_spec ttl 0); [|lia]. unfold bind at 1.
  rewrite (Cache_Get_fresh _ _ _ _ _ Hopen Hlook Hdec Hfresh), Hacc.
  reflexivity.
Qed.

Lemma cachedValue_rejected hc key ttl validator (w : World) value entry :
  ttl > 0 ->
  closed (store w) = false ->
  data (store w) !! key = Some value ->
  BytesToObject value = Ok entry ->
  isExpired (cache hc) (clock w) entry = false ->
  accepts validator (Data entry) = false ->
  cachedValue hc key ttl validator w
  = (None,
     mkWorld (mkStore (delete key (data (store w))) false) (clock w)
             (trace w ++ [EvGet key; EvDelete key])).
Proof.
  intros Httl Hopen Hlook Hdec Hfresh Hacc. unfold cachedValue.
  destruct (Z.gtb_spec ttl 0); [|lia]. unfold bind at 1.
  rewrite (Cache_Get_fresh _ _ _ _ _ Hopen Hlook Hdec Hfresh), Hacc.
  unfold bind, Cache_Delete. rewrite Store_Delete_open by exact Hopen.
  cbn. rewrite <- app_assoc. reflexivity.
Qed.

Lemma cachedValue_expired hc key ttl validator (w : World) value entry :
  ttl > 0 ->
  closed (store w) = false ->
  data (store w) !! key = Some value ->
  BytesToObject value = Ok entry ->
  isExpired (cache hc) (clock w) entry = true ->
  cachedValue hc key ttl validator w
  = (None,
     mkWorld (mkStore (delete key (data (store w))) false) (clock w)
             (trace w ++ [EvGet key; EvDelete key])).
Proof.
  intros Httl Hopen Hlook Hdec Hexp. unfold cachedValue.
  destruct (Z.gtb_spec ttl 0); [|lia]. unfold bind at 1.
  rewrite (Cache_Get_expired _ _ _ _ _ Hopen Hlook Hdec Hexp). reflexivity.
Qed.

Lemma cachedValue_miss hc key ttl validator (w : World) :
  ttl > 0 ->
  unreadable (store w) key ->
  cachedValue hc key ttl validator w
  = (None, mkWorld (store w) (clock w) (trace w ++ [EvGet key])).
Proof.
  intros Httl Hun. unfold cachedValue.
  destruct (Z.gtb_spec ttl 0); [|lia]. unfold bind at 1.
  rewrite (Cache_Get_miss _ _ _ Hun). reflexivity.
Qed.

(** The store either cannot be read under [key] or holds an entry
    there that is expired or not. *)
Lemma store_cases (c : Cache) (key : string) (w : World) :
  unreadable (store w) key \/
  exists value entry,
    closed (store w) = false /\
    data (store w) !! key = Some value /\
    BytesToObject value = Ok entry.
Proof.
  unfold unreadable.
  destruct (closed (store w)) eqn:Hc; [left; left; reflexivity|].
  destruct (data (store w) !! key) as [value|] eqn:Hl; [|left; right; left; reflexivity].
  destruct (BytesToObject value) as [entry|e] eqn:Hd.
  - right. exists value, entry. auto.
  - left. right. right. exists value, e. auto.
Qed.

Lemma unreadable_deleted (dat : gmap string bytes) (cl : bool) (key : string) :
  unreadable (mkStore (delete key dat) cl) key.
Proof. right. left. cbn. apply lookup_delete_eq. Qed.

(** The first part of [GetWithValidator], in all cases: a hit, which
    only reads the store; or no value, after which the store cannot
    be read under the key, having lost at most that key. *)
Lemma cachedValue_cases hc key ttl validator (w : World) :
  ttl > 0 ->
  (exists value entry,
      closed (store w) = false /\
      data (store w) !! key = Some value /\
      BytesToObject value = Ok entry /\
      isExpired (cache hc) (clock w) entry = false /\
      accepts validator (Data entry) = true /\
      cachedValue hc key ttl validator w
      = (Some (Data entry, FinalURL entry),
         mkWorld (store w) (clock w) (trace w ++ [EvGet key]))) \/
  (exists (dat' : gmap string bytes) (evs : list Event),
      cachedValue hc key ttl validator w
      = (None, mkWorld (mkStore dat' (closed (store w))) (clock w)
                       (trace w ++ evs)) /\
      (dat' = data (store w) \/ dat' = delete key (data (store w))) /\
      (evs = [EvGet key] \/ evs = [EvGet key; EvDelete key]) /\
      unreadable (mkStore dat' (closed (store w))) key).
Proof.
  intros Httl.
  destruct (store_cases (cache hc) key w) as [Hun | (value & entry & Hopen & Hlook & Hdec)].
  - right. exists (data (store w)), [EvGet key].
    rewrite (cachedValue_miss _ _ _ _ _ Httl Hun).
    destruct w as [[dat cl] now tr]. cbn in *. auto.
  - destruct (isExpired (cache hc) (clock w) entry) eqn:Hexp.
    + right. exists (delete key (data (store w))), [EvGet key; EvDelete key].
      rewrite (cachedValue_expired _ _ _ _ _ _ _ Httl Hopen Hlook Hdec Hexp).
      rewrite Hopen. repeat split; auto. apply unreadable_deleted.
    + destruct (accepts validator (Data entry)) eqn:Hacc.
      * left. exists value, entry. repeat split; auto.
        eapply cachedValue_hit; eauto.
      * right. exists (delete key (data (store w))), [EvGet key; EvDelete key].
        rewrite (cachedValue_rejected _ _ _ _ _ _ _ Httl Hopen Hlook Hdec Hexp Hacc).
        rewrite Hopen. repeat split; auto. apply unreadable_deleted.
Qed.

(** What [Cache.Set] does: nothing when the entry does not encode;
    otherwise one [Put], which an open store performs. *)
Lemma Cache_Set_effect key dat url finalURL ttl (w : World) :
  exists (dat' : gmap string bytes) (evs : list Event),
    Cache_Set key dat url finalURL ttl w
    = (tt, mkWorld (mkStore dat' (closed (store w))) (clock w) (trace w ++ evs)) /\
    ((evs = [] /\ dat' = data (store w) /\
      exists e, ObjectToBytes (mkEntry dat url finalURL (clock w) (Add (clock w) ttl))
                = Err e) \/
     (exists enc,
         ObjectToBytes (mkEntry dat url finalURL (clock w) (Add (clock w) ttl))
         = Ok enc /\
         evs = [EvPut key enc] /\
         dat' = if closed (store w) then data (store w)
                else <[key := enc]> (data (store w)))).
Proof.
  destruct w as [[d cl] now tr]. unfold Cache_Set, Store_Put. run.
  destruct (ObjectToBytes _) as [enc|e] eqn:Henc.
  - exists (if cl then d else <[key := enc]> d), [EvPut key enc].
    split; [destruct cl; reflexivity|]. right. exists enc. auto.
  - exists d, []. rewrite app_nil_r. split; [reflexivity|]. left. eauto.
Qed.

(** The fetch in one step. *)
Lemma fetch_effect (tr : Transport) (url : string) (w : World) :
  fetch tr url w
  = (respond tr url,
     mkWorld (store w) (clock w + fetchTime tr url)
             (trace w ++ fetchEvents tr url)).
Proof.
  destruct w as [st now tr0]. unfold fetch, fetchTime, fetchEvents, requestBuilt.
  destruct (respond tr url); run; rewrite ?Z.add_0_r, ?app_nil_r; reflexivity.
Qed.

Lemma requestBuilt_fetch (tr : Transport) (url : string) :
  requestBuilt tr url = true ->
  fetchEvents tr url = [EvFetch url] /\ fetchTime tr url = latency tr url.
Proof. unfold fetchEvents, fetchTime. intros ->. auto. Qed.

Lemma requestBuilt_false (tr : Transport) (url : string) :
  requestBuilt tr url = false ->
  fetchEvents tr url = [] /\ fetchTime tr url = 0 /\
  exists e, respond tr url = RequestError e.
Proof.
  unfold fetchEvents, fetchTime. intros Hb. rewrite Hb.
  unfold requestBuilt in Hb. destruct (respond tr url); try discriminate. eauto.
Qed.

Lemma fetchEvents_no_store (tr : Transport) (url : string) (e : Event) :
  e ∈ fetchEvents tr url -> e = EvFetch url.
Proof.
  unfold fetchEvents. destruct (requestBuilt tr url); intros Hin.
  - apply list_elem_of_singleton in Hin. exact Hin.
  - inversion Hin.
Qed.

(** What the second part of [GetWithValidator] does: the fetch, and
    at most one [Put] after it. *)
Lemma fetchFresh_effect tr url key ttl validator (w : World) :
  exists (r : bytes * string * option error) (dat' : gmap string bytes)
         (evs : list Event),
    fetchFresh tr url key ttl validator w
    = (r, mkWorld (mkStore dat' (closed (store w))) (clock w + fetchTime tr url)
                  (trace w ++ fetchEvents tr url ++ evs)) /\
    (evs = [] /\ dat' = data (store w) \/
     exists enc, evs = [EvPut key enc] /\
                 (dat' = data (store w) \/ dat' = <[key := enc]> (data (store w)))) /\
    match respond tr url with
    | Fetched finalURL body =>
        r = (body, finalURL, None) /\
        (accepts validator body && (ttl >? 0) = false -> evs = [])
    | RequestError err => evs = [] /\ r = ([], EmptyString, Some err)
    | o => evs = [] /\ snd r = outcome_error o /\ fst (fst r) = []
    end.
Proof.
  unfold fetchFresh. unfold bind at 1. rewrite fetch_effect.
  destruct (respond tr url) as [err|err|f err|f body].
  1-3: unfold ret; eexists _, (data (store w)), [];
       destruct w as [[d cl] now tr0]; cbn [store data closed clock trace];
       rewrite app_nil_r; repeat split; auto.
  destruct (accepts validator body && (ttl >? 0)) eqn:Hc.
  - unfold bind.
    match goal with
    | |- context [Cache_Set ?k ?b ?u ?f' ?t ?w0] =>
        destruct (Cache_Set_effect k b u f' t w0) as (dat' & evs & Hset & Hcases)
    end.
    rewrite Hset. cbn [store clock trace closed data] in *.
    exists (body, f, None), dat', evs. unfold ret.
    rewrite <- app_assoc. split; [reflexivity|]. split; [|split; [reflexivity|discriminate]].
    destruct Hcases as [(-> & -> & _) | (enc & _ & -> & ->)]; [left; auto|].
    right. exists enc. split; [reflexivity|]. destruct (closed (store w)); auto.
  - unfold bind, ret. exists (body, f, None), (data (store w)), [].
    destruct w as [[d cl] now tr0]. cbn [store data closed clock trace].
    rewrite app_nil_r. repeat split; auto.
Qed.

Lemma GetWithValidator_hit hc tr url validator (w : World) value entry :
  GetTTL (cache hc) url > 0 ->
  closed (store w) = false ->
  data (store w) !! hashKey url = Some value ->
  BytesToObject value = Ok entry ->
  isExpired (cache hc) (clock w) entry = false ->
  accepts validator (Data entry) = true ->
  GetWithValidator hc tr url validator w
  = ((Data entry, FinalURL entry, None),
     mkWorld (store w) (clock w) (trace w ++ [EvGet (hashKey url)])).
Proof.
  intros Httl Hopen Hlook Hdec Hfresh Hacc. unfold GetWithValidator, bind.
  rewrite (cachedValue_hit _ _ _ _ _ _ _ Httl Hopen Hlook Hdec Hfresh Hacc).
  reflexivity.
Qed.

(** When the cache is bypassed or cannot be read under the key, the
    call goes on to the fetch: the request goes out, unless
    [http.NewRequest] fails, whose error is then returned. *)
Lemma GetWithValidator_fetches hc tr url validator (w : World) :
  GetTTL (cache hc) url <= 0 \/ unreadable (store w) (hashKey url) ->
  exists r w' evs,
    GetWithValidator hc tr url validator w = (r, w') /\
    trace w' = (trace w ++ evs)%list /\
    (EvFetch url ∈ evs \/
     exists e, respond tr url = RequestError e /\ r = ([], EmptyString, Some e)).
Proof.
  intros Hcond.
  assert (Hend : forall (r : bytes * string * option error) (pre evs : list Event),
    match respond tr url with
    | Fetched finalURL body =>
        r = (body, finalURL, None) /\
        (accepts validator body && (GetTTL (cache hc) url >? 0) = false -> evs = [])
    | RequestError err => evs = [] /\ r = ([], EmptyString, Some err)
    | o => evs = [] /\ snd r = outcome_error o /\ fst (fst r) = []
    end ->
    EvFetch url ∈ (pre ++ fetchEvents tr url ++ evs)%list \/
    exists e, respond tr url = RequestError e /\ r = ([], EmptyString, Some e)).
  { intros r pre evs Hout. destruct (requestBuilt tr url) eqn:Hb.
    - left. apply requestBuilt_fetch in Hb. destruct Hb as [-> _].
      apply elem_of_app. right. apply elem_of_cons. left. reflexivity.
    - right. apply requestBuilt_false in Hb. destruct Hb as (_ & _ & e & He).
      rewrite He in Hout. exists e. tauto. }
  unfold GetWithValidator, bind.
  destruct (Z.le_gt_cases (GetTTL (cache hc) url) 0) as [Hle|Hgt].
  - rewrite cachedValue_bypass by exact Hle.
    destruct (fetchFresh_effect tr url (hashKey url) (GetTTL (cache hc) url)
                validator w) as (r & dat' & evs & -> & _ & Hout).
    eexists _, _, _. split; [reflexivity|]. cbn [trace].
    split; [reflexivity|]. apply (Hend r [] evs Hout).
  - destruct Hcond as [Hle|Hun]; [lia|].
    rewrite cachedValue_miss by (lia || exact Hun).
    match goal with
    | |- context [fetchFresh ?t ?u ?k ?l ?v ?w0] =>
        destruct (fetchFresh_effect t u k l v w0) as (r & dat' & evs & -> & _ & Hout)
    end.
    eexists _, _, _. split; [reflexivity|]. cbn [trace].
    rewrite <- app_assoc. split; [reflexivity|].
    apply (Hend r [EvGet (hashKey url)] evs Hout).
Qed.

(** Every call of [GetWithValidator] is a cache hit or goes on to the
    fetch, which comes after at most a read and a delete, from a store
    that cannot be read under the key unless the cache is bypassed. *)
Lemma GetWithValidator_cases hc tr url validator (w : World) :
  (exists value entry,
      GetTTL (cache hc) url > 0 /\
      closed (store w) = false /\
      data (store w) !! hashKey url = Some value /\
      BytesToObject value = Ok entry /\
      isExpired (cache hc) (clock w) entry = false /\
      accepts validator (Data entry) = true /\
      GetWithValidator hc tr url validator w
      = ((Data entry, FinalURL entry, None),
         mkWorld (store w) (clock w) (trace w ++ [EvGet (hashKey url)]))) \/
  (exists (dat1 : gmap string bytes) (pre : list Event)
          (r : bytes * string * option error) (dat' : gmap string bytes)
          (evs : list Event),
      (GetTTL (cache hc) url <= 0 /\ dat1 = data (store w) /\ pre = [] \/
       GetTTL (cache hc) url > 0 /\
       (dat1 = data (store w) \/ dat1 = delete (hashKey url) (data (store w))) /\
       (pre = [EvGet (hashKey url)] \/
        pre = [EvGet (hashKey url); EvDelete (hashKey url)]) /\
       unreadable (mkStore dat1 (closed (store w))) (hashKey url)) /\
      GetWithValidator hc tr url validator w
      = (r, mkWorld (mkStore dat' (closed (store w))) (clock w + fetchTime tr url)
                    (trace w ++ pre ++ fetchEvents tr url ++ evs)) /\
      (evs = [] /\ dat' = dat1 \/
       exists enc, evs = [EvPut (hashKey url) enc] /\
                   (dat' = dat1 \/ dat' = <[hashKey url := enc]> dat1)) /\
      match respond tr url with
      | Fetched finalURL body =>
          r = (body, finalURL, None) /\
          (accepts validator body && (GetTTL (cache hc) url >? 0) = false -> evs = [])
      | RequestError err => evs = [] /\ r = ([], EmptyString, Some err)
      | o => evs = [] /\ snd r = outcome_error o /\ fst (fst r) = []
      end).
Proof.
  unfold GetWithValidator, bind.
  destruct (Z.le_gt_cases (GetTTL (cache hc) url) 0) as [Hle|Hgt].
  - right. rewrite cachedValue_bypass by exact Hle.
    destruct (fetchFresh_effect tr url (hashKey url) (GetTTL (cache hc) url)
                validator w) as (r & dat' & evs & -> & Hst & Hout).
    exists (data (store w)), [], r, dat', evs. cbn [app]. auto.
  - destruct (cachedValue_cases hc (hashKey url) (GetTTL (cache hc) url) validator w)
      as [(value & entry & Hopen & Hlook & Hdec & Hfresh & Hacc & ->)
         |(dat1 & pre & -> & Hdat & Hpre & Hun)]; [lia| |].
    + left. exists value, entry. repeat split; auto; lia.
    + right.
      match goal with
      | |- context [fetchFresh ?t ?u ?k ?l ?v ?w0] =>
          destruct (fetchFresh_effect t u k l v w0) as (r & dat' & evs & -> & Hst & Hout)
      end.
      cbn [store clock trace closed data] in *.
      exists dat1, pre, r, dat', evs. rewrite <- app_assoc.
      split; [right; repeat split; auto; lia|]. auto.
Qed.

(** C1. For a URL whose resolved TTL is positive, when the store holds
    under the URL's key an entry that is not expired and whose data
    the validator accepts (or there is no validator),
    [GetWithValidator] returns the entry's data and final URL with no
    error, and its only call to a collaborator is the store read: no
    fetch.  A second call, at any later instant at which the entry is
    still not expired, returns the same data, again with one store
    read and no fetch. *)
Theorem GetWithValidator_cache_hit :
  forall (hc : HTTPClient) (tr : Transport) (url : string)
         (validator : ContentValidator) (w : World) (value : bytes)
         (entry : CacheEntry),
    GetTTL (cache hc) url > 0 ->
    closed (store w) = false ->
    data (store w) !! hashKey url = Some value ->
    BytesToObject value = Ok entry ->
    isExpired (cache hc) (clock w) entry = false ->
    accepts validator (Data entry) = true ->
    GetWithValidator hc tr url validator w
    = ((Data entry, FinalURL entry, None),
       mkWorld (store w) (clock w) (trace w ++ [EvGet (hashKey url)])) /\
    forall (tr2 : Transport) (later : Time),
      isExpired (cache hc) later entry = false ->
      let w1 := snd (GetWithValidator hc tr url validator w) in
      GetWithValidator hc tr2 url validator (mkWorld (store w1) later (trace w1))
      = ((Data entry, FinalURL entry, None),
         mkWorld (store w) later
                 (trace w ++ [EvGet (hashKey url); EvGet (hashKey url)])).
Proof.
  intros hc tr url validator w value entry Httl Hopen Hlook Hdec Hfresh Hacc.
  pose proof (GetWithValidator_hit hc tr url validator w value entry
                Httl Hopen Hlook Hdec Hfresh Hacc) as Hfirst.
  split; [exact Hfirst|].
  intros tr2 later Hlater. rewrite Hfirst. cbn [snd store trace].
  rewrite (GetWithValidator_hit hc tr2 url validator _ value entry);
    cbn [store clock trace]; auto.
  rewrite <- app_assoc. reflexivity.
Qed.

(** C10. When the store holds a non-expired entry for the URL, the
    validator rejects its data and the fetch that follows fails,
    [GetWithValidator] returns the error of the fetch, and the entry
    is gone from the store: the store after the call is the one
    before with the key deleted.  The calls made are the read, the
    delete and the fetch, the last one unless the failure is that of
    [http.NewRequest]. *)
Theorem GetWithValidator_rejected_then_failed :
  forall (hc : HTTPClient) (tr : Transport) (url : string)
         (validator : ContentValidator) (w : World) (value : bytes)
         (entry : CacheEntry) (err : error),
    GetTTL (cache hc) url > 0 ->
    closed (store w) = false ->
    data (store w) !! hashKey url = Some value ->
    BytesToObject value = Ok entry ->
    isExpired (cache hc) (clock w) entry = false ->
    accepts validator (Data entry) = false ->
    outcome_error (respond tr url) = Some err ->
    exists (finalURL : string) (w' : World),
      GetWithValidator hc tr url validator w = (([], finalURL, Some err), w') /\
      data (store w') = delete (hashKey url) (data (store w)) /\
      data (store w') !! hashKey url = None /\
      trace w' = (trace w ++ [EvGet (hashKey url); EvDelete (hashKey url)]
                          ++ (if requestBuilt tr url then [EvFetch url] else []))%list.
Proof.
  intros hc tr url validator w value entry err Httl Hopen Hlook Hdec Hfresh
         Hrej Herr.
  unfold GetWithValidator, bind.
  rewrite (cachedValue_rejected _ _ _ _ _ _ _ Httl Hopen Hlook Hdec Hfresh Hrej).
  unfold fetchFresh, bind. rewrite fetch_effect. unfold fetchEvents, ret.
  cbn [store clock trace].
  destruct (respond tr url) as [e|e|f e|f body]; cbn in Herr;
    inversion Herr; subst; eexists _, _; (split; [reflexivity|]);
    cbn [store data trace]; rewrite <- app_assoc;
    (repeat split; auto); apply lookup_delete_eq.
Qed.

Lemma lookup_kept (dat dat1 : gmap string bytes) (key k : string) (v : bytes) :
  dat1 = dat \/ dat1 = delete key dat -> dat1 !! k = Some v -> dat !! k = Some v.
Proof.
  intros [-> | ->]; [auto|]. intros Hl. apply lookup_delete_Some in Hl. tauto.
Qed.

(** C6. When the outcome of the fetch for the URL is an error, a call
    of [GetWithValidator] makes no [Put] and the store gains no
    entry; and unless the call is a cache hit, which makes no fetch,
    it returns exactly that error, with no data: after the request
    went out, or without one when the error is that of
    [http.NewRequest]. *)
Theorem GetWithValidator_transport_error :
  forall (hc : HTTPClient) (tr : Transport) (url : string)
         (validator : ContentValidator) (w : World) (err : error),
    outcome_error (respond tr url) = Some err ->
    exists (r : bytes * string * option error) (w' : World) (evs : list Event),
      GetWithValidator hc tr url validator w = (r, w') /\
      trace w' = (trace w ++ evs)%list /\
      (forall k v, EvPut k v ∉ evs) /\
      (forall k v, data (store w') !! k = Some v -> data (store w) !! k = Some v) /\
      (EvFetch url ∈ evs -> snd r = Some err /\ fst (fst r) = []) /\
      (EvFetch url ∉ evs ->
       (exists value entry,
           data (store w) !! hashKey url = Some value /\
           BytesToObject value = Ok entry /\
           isExpired (cache hc) (clock w) entry = false /\
           accepts validator (Data entry) = true /\
           r = (Data entry, FinalURL entry, None)) \/
       (respond tr url = RequestError err /\ r = ([], EmptyString, Some err))).
Proof.
  intros hc tr url validator w err Herr.
  destruct (GetWithValidator_cases hc tr url validator w)
    as [(value & entry & Httl & Hopen & Hlook & Hdec & Hfresh & Hacc & ->)
       |(dat1 & pre & r & dat' & evs & Hpre & -> & Hst & Hout)].
  - eexists _, _, [EvGet (hashKey url)]. split; [reflexivity|].
    cbn [trace store]. split; [reflexivity|].
    split; [intros k v Hin; apply list_elem_of_singleton in Hin; discriminate|].
    split; [auto|].
    split; [intros Hin; apply list_elem_of_singleton in Hin; discriminate|].
    intros _. left. exists value, entry. auto.
  - assert (Hevs : evs = [] /\ snd r = Some err /\ fst (fst r) = []).
    { destruct (respond tr url); cbn in Herr; try discriminate.
      - destruct Hout as (-> & ->). auto.
      - destruct Hout as (-> & Hr & Hd); rewrite Hr; cbn; auto.
      - destruct Hout as (-> & Hr & Hd); rewrite Hr; cbn; auto. }
    destruct Hevs as (-> & Hr & Hd).
    destruct Hst as [[_ ->] | (enc & Hcontra & _)]; [|discriminate].
    eexists _, _, _. split; [reflexivity|]. cbn [trace store data].
    split; [reflexivity|]. rewrite app_nil_r.
    assert (Hnoput : forall k v, EvPut k v ∉ (pre ++ fetchEvents tr url)%list).
    { intros k v Hin. apply elem_of_app in Hin. destruct Hin as [Hin|Hin].
      - destruct Hpre as [(_ & _ & ->) | (_ & _ & [-> | ->] & _)];
          repeat (apply elem_of_cons in Hin; destruct Hin as [Hin|Hin];
                  [discriminate|]); inversion Hin.
      - apply fetchEvents_no_store in Hin. discriminate. }
    split; [exact Hnoput|].
    split.
    { intros k v. destruct Hpre as [(_ & -> & _) | (_ & Hd1 & _)]; [auto|].
      apply lookup_kept with (key := hashKey url). exact Hd1. }
    split; [auto|].
    intros Hnot. right. destruct (requestBuilt tr url) eqn:Hb.
    + exfalso. apply Hnot. apply requestBuilt_fetch in Hb. destruct Hb as [-> _].
      apply elem_of_app. right. apply list_elem_of_singleton. reflexivity.
    + apply requestBuilt_false in Hb. destruct Hb as (_ & _ & e & He).
      rewrite He in Hout, Herr. cbn in Herr. inversion Herr; subst.
      destruct Hout as (_ & ->). auto.
Qed.

(** C5. When the transport delivers a body for the URL and the
    validator rejects that body, a call of [GetWithValidator] makes no
    [Put]; and if it fetches (it is not a cache hit), it returns the
    body and the final URL with no error, and any following call for
    the URL on the store it leaves is not served from the cache: it
    fetches again, for every transport that lets the request for the
    URL be built, as the transport of the first call did. *)
Theorem GetWithValidator_fresh_rejected :
  forall (hc : HTTPClient) (tr : Transport) (url : string)
         (v : bytes -> bool) (w : World) (finalURL : string) (body : bytes),
    respond tr url = Fetched finalURL body ->
    v body = false ->
    exists (r : bytes * string * option error) (w' : World) (evs : list Event),
      GetWithValidator hc tr url (Some v) w = (r, w') /\
      trace w' = (trace w ++ evs)%list /\
      (forall k x, EvPut k x ∉ evs) /\
      (EvFetch url ∈ evs ->
       r = (body, finalURL, None) /\
       forall (tr2 : Transport) (validator2 : ContentValidator) (w2 : World),
         store w2 = store w' ->
         exists r2 w2' evs2,
           GetWithValidator hc tr2 url validator2 w2 = (r2, w2') /\
           trace w2' = (trace w2 ++ evs2)%list /\
           (EvFetch url ∈ evs2 \/
            exists e, respond tr2 url = RequestError e /\
                      r2 = ([], EmptyString, Some e))).
Proof.
  intros hc tr url v w finalURL body Hresp Hrej.
  destruct (GetWithValidator_cases hc tr url (Some v) w)
    as [(value & entry & Httl & Hopen & Hlook & Hdec & Hfresh & Hacc & ->)
       |(dat1 & pre & r & dat' & evs & Hpre & -> & Hst & Hout)].
  - eexists _, _, [EvGet (hashKey url)]. split; [reflexivity|].
    cbn [trace store]. split; [reflexivity|].
    split; [intros k x Hin; apply list_elem_of_singleton in Hin; discriminate|].
    intros Hin. apply list_elem_of_singleton in Hin. discriminate.
  - rewrite Hresp in Hout. destruct Hout as (-> & Hevs).
    cbn [accepts] in Hevs. rewrite Hrej in Hevs. specialize (Hevs eq_refl). subst evs.
    destruct Hst as [[_ ->] | (enc & Hcontra & _)]; [|discriminate].
    eexists _, _, _. split; [reflexivity|]. cbn [trace store data].
    split; [reflexivity|]. rewrite app_nil_r.
    split.
    { intros k x Hin. apply elem_of_app in Hin. destruct Hin as [Hin|Hin].
      - destruct Hpre as [(_ & _ & ->) | (_ & _ & [-> | ->] & _)];
          repeat (apply elem_of_cons in Hin; destruct Hin as [Hin|Hin];
                  [discriminate|]); inversion Hin.
      - apply fetchEvents_no_store in Hin. discriminate. }
    intros _. split; [reflexivity|].
    intros tr2 validator2 w2 Hstore. apply GetWithValidator_fetches.
    rewrite Hstore.
    destruct Hpre as [(Hle & _) | (_ & _ & _ & Hun)]; [left; exact Hle|right; exact Hun].
Qed.

(** The three entry points that fetch, for a URL that
    [http.NewRequest] rejects: its error is returned and no
    collaborator is called. *)
Lemma request_error_returns hc tr url validator (w : World) (err : error) :
  respond tr url = RequestError err ->
  fetchFresh tr url (hashKey url) (GetTTL (cache hc) url) validator w
  = (([], EmptyString, Some err), w) /\
  Fetch hc tr url validator w = (([], Some err), w) /\
  FetchWithFinalURL hc tr url w = (([], EmptyString, Some err), w).
Proof.
  intros Hresp. unfold fetchFresh, Fetch, FetchWithFinalURL, fetch, bind, ret.
  rewrite Hresp. auto.
Qed.

(** C9, amended.  A client made by [NewClient] has exactly the policies
    it was given.  For a URL that none of them matches (every URL,
    when the list is empty) [GetTTL] is 0, and [GetWithValidator] and
    [Get] neither read nor write the store, which is left as it was.
    When [http.NewRequest] accepts the URL they make one call to a
    collaborator, the fetch; when it rejects the URL they return its
    error and make no call at all. *)
Theorem NewClient_unmatched_bypasses_cache :
  forall (newLevelStore : string -> result LevelStore) (cacheDir : string)
         (policies : list CachePolicy) (hc : HTTPClient) (st : LevelStore)
         (url : string),
    NewClient newLevelStore cacheDir policies = Ok (hc, st) ->
    Forall (fun p => MatchString (Pattern p) url = false) policies ->
    Policies (cache hc) = policies /\
    GetTTL (cache hc) url = 0 /\
    forall (tr : Transport) (validator : ContentValidator) (w : World),
      (requestBuilt tr url = true ->
       exists r : bytes * string * option error,
         GetWithValidator hc tr url validator w
         = (r, mkWorld (store w) (clock w + latency tr url)
                       (trace w ++ [EvFetch url])) /\
         Get hc tr url w
         = ((fst (fst (fst (GetWithValidator hc tr url None w))),
             snd (fst (GetWithValidator hc tr url None w))),
            mkWorld (store w) (clock w + latency tr url)
                    (trace w ++ [EvFetch url]))) /\
      (forall err : error,
          respond tr url = RequestError err ->
          GetWithValidator hc tr url validator w
          = (([], EmptyString, Some err), w) /\
          Get hc tr url w = (([], Some err), w)).
Proof.
  intros newLevelStore cacheDir policies hc st url Hnew Hnone.
  assert (Hpol : Policies (cache hc) = policies).
  { unfold NewClient in Hnew. destruct (String.eqb cacheDir EmptyString); [discriminate|].
    destruct (newLevelStore _); [|discriminate]. inversion Hnew; subst. reflexivity. }
  assert (Httl : GetTTL (cache hc) url = 0).
  { unfold GetTTL. rewrite Hpol. apply firstMatchTTL_none. exact Hnone. }
  split; [exact Hpol|]. split; [exact Httl|].
  intros tr validator w. split.
  - intros Hbuilt.
    assert (Hcall : forall validator0,
      exists r, GetWithValidator hc tr url validator0 w
                = (r, mkWorld (store w) (clock w + latency tr url)
                              (trace w ++ [EvFetch url]))).
    { intros validator0. unfold GetWithValidator, bind.
      rewrite cachedValue_bypass by lia.
      destruct (fetchFresh_effect tr url (hashKey url) (GetTTL (cache hc) url)
                  validator0 w) as (r & dat' & evs & -> & Hst & Hout).
      destruct (requestBuilt_fetch tr url Hbuilt) as [-> ->].
      assert (Hevs : evs = []).
      { destruct (respond tr url); try (destruct Hout as [-> _]; reflexivity).
        destruct Hout as [_ Hev]. apply Hev. rewrite Httl.
        apply andb_false_r. }
      subst evs. destruct Hst as [[_ ->] | (enc & Hcontra & _)]; [|discriminate].
      exists r. destruct w as [[d cl] now tr0]. reflexivity. }
    destruct (Hcall validator) as [r Hr]. exists r. split; [exact Hr|].
    unfold Get, bind. destruct (Hcall None) as [r0 Hr0]. rewrite Hr0.
    destruct r0 as [[d f] e]. reflexivity.
  - intros err Hresp.
    assert (Hcall : forall validator0,
      GetWithValidator hc tr url validator0 w = (([], EmptyString, Some err), w)).
    { intros validator0. unfold GetWithValidator, bind.
      rewrite cachedValue_bypass by lia.
      apply (request_error_returns hc tr url validator0 w err Hresp). }
    split; [apply Hcall|]. unfold Get, bind. rewrite Hcall. reflexivity.
Qed.

(** What [Fetch] and [FetchWithFinalURL] do after a fetch that
    delivered: at most one [Put]. *)
Lemma Cache_Set_no_read key dat url finalURL ttl (w : World) :
  exists (w' : World) (evs : list Event),
    Cache_Set key dat url finalURL ttl w = (tt, w') /\
    trace w' = (trace w ++ evs)%list /\
    (forall k, EvGet k ∉ evs) /\
    forall enc,
      closed (store w) = false ->
      ObjectToBytes (mkEntry dat url finalURL (clock w) (Add (clock w) ttl)) = Ok enc ->
      evs = [EvPut key enc] /\ data (store w') = <[key := enc]> (data (store w)).
Proof.
  destruct (Cache_Set_effect key dat url finalURL ttl w)
    as (dat' & evs & Hset & Hcases).
  eexists _, evs. split; [exact Hset|]. cbn [trace store data].
  split; [reflexivity|]. split.
  - intros k Hin.
    destruct Hcases as [(-> & _) | (enc & _ & -> & _)]; [inversion Hin|].
    apply list_elem_of_singleton in Hin. discriminate.
  - intros enc Hopen Henc.
    destruct Hcases as [(_ & _ & e & He) | (enc' & He & -> & ->)]; [congruence|].
    rewrite Henc in He. inversion He; subst. rewrite Hopen. auto.
Qed.

(** C8, amended.  [Fetch] and [FetchWithFinalURL] never read the store,
    whatever it holds.  For a URL that [http.NewRequest] accepts they
    go to the network, with the fetch as their first call to a
    collaborator; for a URL it rejects they return its error and make
    no call at all.  When the fetch delivers a body, the resolved TTL
    is positive and (for [Fetch]) the validator accepts the body or is
    absent, they [Put] under the URL's key the encoding of a new
    entry, which an open store takes in place of what it had; the
    entry written by [Fetch] has the empty string as its final URL. *)
Theorem Fetch_always_network :
  forall (hc : HTTPClient) (tr : Transport) (url : string)
         (validator : ContentValidator) (w : World),
    let now := clock w + latency tr url in
    let ttl := GetTTL (cache hc) url in
    (exists (r : bytes * option error) (w' : World) (evs : list Event),
        Fetch hc tr url validator w = (r, w') /\
        trace w' = (trace w ++ evs)%list /\
        (forall k, EvGet k ∉ evs) /\
        (requestBuilt tr url = true -> exists evs', evs = EvFetch url :: evs') /\
        (forall err, respond tr url = RequestError err ->
                     r = ([], Some err) /\ w' = w) /\
        forall (finalURL : string) (body enc : bytes),
          respond tr url = Fetched finalURL body ->
          ttl > 0 ->
          accepts validator body = true ->
          closed (store w) = false ->
          ObjectToBytes (mkEntry body url EmptyString now (Add now ttl)) = Ok enc ->
          r = (body, None) /\
          evs = [EvFetch url; EvPut (hashKey url) enc] /\
          data (store w') = <[hashKey url := enc]> (data (store w))) /\
    (exists (r : bytes * string * option error) (w' : World) (evs : list Event),
        FetchWithFinalURL hc tr url w = (r, w') /\
        trace w' = (trace w ++ evs)%list /\
        (forall k, EvGet k ∉ evs) /\
        (requestBuilt tr url = true -> exists evs', evs = EvFetch url :: evs') /\
        (forall err, respond tr url = RequestError err ->
                     r = ([], EmptyString, Some err) /\ w' = w) /\
        forall (finalURL : string) (body enc : bytes),
          respond tr url = Fetched finalURL body ->
          ttl > 0 ->
          closed (store w) = false ->
          ObjectToBytes (mkEntry body url finalURL now (Add now ttl)) = Ok enc ->
          r = (body, finalURL, None) /\
          evs = [EvFetch url; EvPut (hashKey url) enc] /\
          data (store w') = <[hashKey url := enc]> (data (store w))).
Proof.
  intros hc tr url validator w now ttl. subst now ttl.
  assert (Hone : forall k, EvGet k ∉ [EvFetch url]).
  { intros k Hin. apply list_elem_of_singleton in Hin. discriminate. }
  assert (Hmore : forall evs, (forall k, EvGet k ∉ evs) ->
                              forall k, EvGet k ∉ EvFetch url :: evs).
  { intros evs Hevs k Hin. apply elem_of_cons in Hin.
    destruct Hin as [Hin|Hin]; [discriminate|]. exact (Hevs k Hin). }
  split.
  - destruct (respond tr url) as [err|err|f err|f body] eqn:Hresp.
    + destruct (request_error_returns hc tr url validator w err Hresp)
        as (_ & -> & _).
      exists ([], Some err), w, []. rewrite app_nil_r.
      split; [reflexivity|]. split; [reflexivity|].
      split; [intros k Hin; inversion Hin|].
      split; [unfold requestBuilt; rewrite Hresp; discriminate|].
      split; [intros e He; inversion He; auto|discriminate].
    + unfold Fetch, bind at 1. rewrite fetch_effect.
      unfold fetchEvents, fetchTime, requestBuilt. rewrite Hresp. unfold ret.
      eexists _, _, [EvFetch url]. split; [reflexivity|]. cbn [trace].
      split; [reflexivity|]. split; [exact Hone|].
      split; [intros _; exists []; reflexivity|].
      split; discriminate.
    + unfold Fetch, bind at 1. rewrite fetch_effect.
      unfold fetchEvents, fetchTime, requestBuilt. rewrite Hresp. unfold ret.
      eexists _, _, [EvFetch url]. split; [reflexivity|]. cbn [trace].
      split; [reflexivity|]. split; [exact Hone|].
      split; [intros _; exists []; reflexivity|].
      split; discriminate.
    + unfold Fetch, bind at 1. rewrite fetch_effect.
      unfold fetchEvents, fetchTime, requestBuilt. rewrite Hresp.
      destruct (Z.gtb_spec (GetTTL (cache hc) url) 0) as [Hgt|Hle];
        [destruct (accepts validator body) eqn:Hacc|].
      * unfold bind.
        match goal with
        | |- context [Cache_Set ?k ?b ?u ?f' ?t ?w0] =>
            destruct (Cache_Set_no_read k b u f' t w0)
              as (w' & evs & Hset & Htrace & Hnoget & Hput)
        end.
        rewrite Hset. cbn [store clock trace closed data] in *. unfold ret.
        exists (body, None), w', (EvFetch url :: evs).
        split; [reflexivity|].
        split; [rewrite Htrace, <- app_assoc; reflexivity|].
        split; [apply Hmore, Hnoget|].
        split; [intros _; exists evs; reflexivity|].
        split; [discriminate|].
        intros finalURL body0 enc Heq _ _ Hopen Henc. inversion Heq; subst.
        destruct (Hput enc Hopen Henc) as [-> ->]. auto.
      * unfold bind, ret. eexists _, _, [EvFetch url].
        split; [reflexivity|]. cbn [trace].
        split; [reflexivity|]. split; [exact Hone|].
        split; [intros _; exists []; reflexivity|].
        split; [discriminate|].
        intros finalURL body0 enc Heq _ Hacc'. inversion Heq; subst. congruence.
      * unfold bind, ret. eexists _, _, [EvFetch url].
        split; [reflexivity|]. cbn [trace].
        split; [reflexivity|]. split; [exact Hone|].
        split; [intros _; exists []; reflexivity|].
        split; [discriminate|].
        intros finalURL body0 enc _ Hgt. lia.
  - destruct (respond tr url) as [err|err|f err|f body] eqn:Hresp.
    + destruct (request_error_returns hc tr url validator w err Hresp)
        as (_ & _ & ->).
      exists ([], EmptyString, Some err), w, []. rewrite app_nil_r.
      split; [reflexivity|]. split; [reflexivity|].
      split; [intros k Hin; inversion Hin|].
      split; [unfold requestBuilt; rewrite Hresp; discriminate|].
      split; [intros e He; inversion He; auto|discriminate].
    + unfold FetchWithFinalURL, bind at 1. rewrite fetch_effect.
      unfold fetchEvents, fetchTime, requestBuilt. rewrite Hresp. unfold ret.
      eexists _, _, [EvFetch url]. split; [reflexivity|]. cbn [trace].
      split; [reflexivity|]. split; [exact Hone|].
      split; [intros _; exists []; reflexivity|].
      split; discriminate.
    + unfold FetchWithFinalURL, bind at 1. rewrite fetch_effect.
      unfold fetchEvents, fetchTime, requestBuilt. rewrite Hresp. unfold ret.
      eexists _, _, [EvFetch url]. split; [reflexivity|]. cbn [trace].
      split; [reflexivity|]. split; [exact Hone|].
      split; [intros _; exists []; reflexivity|].
      split; discriminate.
    + unfold FetchWithFinalURL, bind at 1. rewrite fetch_effect.
      unfold fetchEvents, fetchTime, requestBuilt. rewrite Hresp.
      destruct (Z.gtb_spec (GetTTL (cache hc) url) 0) as [Hgt|Hle].
      * unfold bind.
        match goal with
        | |- context [Cache_Set ?k ?b ?u ?f' ?t ?w0] =>
            destruct (Cache_Set_no_read k b u f' t w0)
              as (w' & evs & Hset & Htrace & Hnoget & Hput)
        end.
        rewrite Hset. cbn [store clock trace closed data] in *. unfold ret.
        exists (body, f, None), w', (EvFetch url :: evs).
        split; [reflexivity|].
        split; [rewrite Htrace, <- app_assoc; reflexivity|].
        split; [apply Hmore, Hnoget|].
        split; [intros _; exists evs; reflexivity|].
        split; [discriminate|].
        intros finalURL body0 enc Heq _ Hopen Henc. inversion Heq; subst.
        destruct (Hput enc Hopen Henc) as [-> ->]. auto.
      * unfold bind, ret. eexists _, _, [EvFetch url].
        split; [reflexivity|]. cbn [trace].
        split; [reflexivity|]. split; [exact Hone|].
        split; [intros _; exists []; reflexivity|].
        split; [discriminate|].
        intros finalURL body0 enc _ Hgt. lia.
Qed.

End ClientFacts.

(** ** The properties on the concrete collaborators *)

Section Runs.
#[local] Existing Instances Demo.regexpLib Demo.float64 Demo.codec.

Lemma Demo_catchAll_matches (s : string) : MatchString catchAll s = true.
Proof. destruct s; reflexivity. Qed.

(** The hash agrees with the test vectors of FIPS 180-4, and the round
    constants with the first and last entries of the table. *)
Example Sum256_abc :
  Hex.EncodeToString (Sha256.Sum256 (bytes_of_string "abc"))
  = "ba7816bf8f01cfea414140de5dae2223b00361a396177a9cb410ff61f20015ad".
Proof. vm_compute. reflexivity. Qed.

Example Sum256_empty :
  hashKey EmptyString
  = "e3b0c44298fc1c149afbf4c8996fb92427ae41e4649b934ca495991b7852b855".
Proof. vm_compute. reflexivity. Qed.

Example round_constants :
  length Sha256._K = 64%nat /\
  head Sha256._K = Some 0x428a2f98 /\ last Sha256._K = Some 0xc67178f2.
Proof. split; [|split]; vm_compute; reflexivity. Qed.

(** The scenario of the package's tests: the three TTLs. *)
Example Demo_policy_scenario :
  GetTTL (cache Demo.client) "http://api.example.com/test" = 5 * Minute /\
  GetTTL (cache Demo.client) "http://api.test.com/test" = 1 * Second /\
  GetTTL (cache Demo.client) "http://other.com/test" = 10 * Minute.
Proof. split; [|split]; vm_compute; reflexivity. Qed.

(** A line of the sample policy file shipped with the package. *)
Example sample_policy_line_rejected :
  splitLine ".*\/news\/archive\/.*=7d           # Archived news"
  = Fields ".*\/news\/archive\/.*" "7d" /\
  ParseDuration "7d" = Err (UnknownUnit "d" "7d").
Proof. split; vm_compute; reflexivity. Qed.

Lemma GetWithValidator_cache_hit_witness :
  GetWithValidator Demo.client Demo.down Demo.url None Demo.warm
  = ((Data Demo.entry, FinalURL Demo.entry, None),
     mkWorld (store Demo.warm) (clock Demo.warm)
             (trace Demo.warm ++ [EvGet (hashKey Demo.url)])).
Proof.
  refine (proj1 (GetWithValidator_cache_hit Demo.client Demo.down Demo.url None
                   Demo.warm Demo.value Demo.entry _ _ _ _ _ _));
    vm_compute; reflexivity.
Defined.

(** C2, as stated, fails at the largest TTL: under the policy
    [.*=9223372036854775807ns] an entry written in the year 1 is read
    in 2026, some 2025 years later, which is more than the TTL of
    about 292 years; [Time.Sub] gives the largest Duration, which does
    not exceed the TTL, so the entry is not expired and [Cache.Get]
    returns it. *)
Lemma Cache_Get_saturated_age :
  LoadPoliciesFromFile (fun _ => Opened Demo.keepLines None) "keep.txt"
  = Ok Demo.keepPolicies /\
  data (store Demo.old) !! hashKey Demo.url = Some Demo.oldValue /\
  BytesToObject Demo.oldValue = Ok Demo.oldEntry /\
  CrawledAt Demo.oldEntry <> 0 /\
  clock Demo.old - CrawledAt Demo.oldEntry
  > GetTTL (mkCache Demo.keepPolicies) (URL Demo.oldEntry) /\
  isExpired (mkCache Demo.keepPolicies) (clock Demo.old) Demo.oldEntry = false /\
  Cache_Get (mkCache Demo.keepPolicies) (hashKey Demo.url) Demo.old
  = ((Data Demo.oldEntry, FinalURL Demo.oldEntry, true),
     mkWorld (store Demo.old) (clock Demo.old) [EvGet (hashKey Demo.url)]).
Proof.
  split; [vm_compute; reflexivity|].
  split; [vm_compute; reflexivity|].
  split; [vm_compute; reflexivity|].
  split; [vm_compute; discriminate|].
  split; [vm_compute; reflexivity|].
  split; vm_compute; reflexivity.
Qed.

Lemma Cache_Get_expiry_witness :
  Cache_Get (cache Demo.client) (hashKey Demo.url) Demo.stale
  = (([], EmptyString, false),
     mkWorld (mkStore (delete (hashKey Demo.url) (data (store Demo.stale))) false)
             (clock Demo.stale)
             (trace Demo.stale
                ++ [EvGet (hashKey Demo.url); EvDelete (hashKey Demo.url)])) /\
  Cache_Get (cache Demo.client) (hashKey Demo.url) Demo.warm
  = ((Data Demo.entry, FinalURL Demo.entry, true),
     mkWorld (store Demo.warm) (clock Demo.warm)
             (trace Demo.warm ++ [EvGet (hashKey Demo.url)])).
Proof.
  assert (Hopen : closed (store Demo.stale) = false) by (vm_compute; reflexivity).
  assert (Hlook : data (store Demo.stale) !! hashKey Demo.url = Some Demo.value)
    by (vm_compute; reflexivity).
  assert (Hdec : BytesToObject Demo.value = Ok Demo.entry)
    by (vm_compute; reflexivity).
  split.
  - pose proof (Cache_Get_expiry (cache Demo.client) (hashKey Demo.url) Demo.stale
                  Demo.value Demo.entry Hopen Hlook Hdec) as Hthm.
    cbv zeta in Hthm. destruct Hthm as (Hcrawled & _ & Hexpired & _).
    apply Hexpired.
    assert (Hnz : CrawledAt Demo.entry <> 0) by (vm_compute; discriminate).
    destruct (Hcrawled Hnz) as (_ & Hplain & _).
    apply Hplain.
    + split; vm_compute; [discriminate|reflexivity].
    + vm_compute. reflexivity.
  - pose proof (Cache_Get_expiry (cache Demo.client) (hashKey Demo.url) Demo.warm
                  Demo.value Demo.entry Hopen Hlook Hdec) as Hthm.
    cbv zeta in Hthm. destruct Hthm as (_ & _ & _ & Hfresh).
    apply Hfresh. vm_compute. reflexivity.
Defined.

Lemma GetTTL_loaded_first_match_witness :
  exists (i : nat) (p : CachePolicy),
    Demo.policies !! i = Some p /\
    MatchString (Pattern p) EmptyString = true /\
    (forall (j : nat) (q : CachePolicy),
        (j < i)%nat -> Demo.policies !! j = Some q ->
        MatchString (Pattern q) EmptyString = false) /\
    GetTTL (mkCache Demo.policies) EmptyString = TTL p.
Proof.
  refine (proj2 (GetTTL_loaded_first_match
                   (fun s => match s with
                             | EmptyString => eq_refl
                             | String _ _ => eq_refl
                             end)
                   Demo.fs "policies.txt" Demo.policies EmptyString _)).
  vm_compute. reflexivity.
Defined.

Lemma LoadPoliciesFromFile_day_unit_witness :
  LoadPoliciesFromFile (fun _ => Opened [".*=1d"] None) "policies.txt"
  = Err (Errorf "invalid duration: %s" (UnknownUnit "d" "1d")).
Proof.
  apply (LoadPoliciesFromFile_day_unit (fun _ => Opened [".*=1d"] None)
           "policies.txt" catchAll).
  - discriminate.
  - reflexivity.
  - vm_compute. reflexivity.
Defined.

(** C7, as stated, fails: the line [.*=-5m] loads, with a negative TTL. *)
Lemma LoadPoliciesFromFile_negative_ttl :
  LoadPoliciesFromFile (fun _ => Opened [".*=-5m"] None) "policies.txt"
  = Ok [mkPolicy catchAll (- (5 * Minute)); defaultPolicy] /\
  ~ Forall (fun p => 0 <= TTL p) [mkPolicy catchAll (- (5 * Minute)); defaultPolicy].
Proof.
  split; [vm_compute; reflexivity|].
  intros Hall. inversion Hall as [|p ps Hneg _]; subst.
  vm_compute in Hneg. apply Hneg. reflexivity.
Qed.

Lemma LoadPoliciesFromFile_ttl_nonneg_witness :
  Forall (fun p => 0 <= TTL p) Demo.policies.
Proof.
  apply (LoadPoliciesFromFile_ttl_nonneg Demo.fs "policies.txt" Demo.policies).
  - intros lines scanErr Hfs. vm_compute in Hfs. inversion Hfs; subst.
    repeat constructor; intros p d Hsplit; vm_compute in Hsplit;
      (discriminate Hsplit || (inversion Hsplit; subst; reflexivity)).
  - vm_compute. reflexivity.
Defined.

Lemma GetWithValidator_fresh_rejected_witness :
  exists (w' : World) (evs : list Event),
    GetWithValidator Demo.client (Demo.server "hello") Demo.url Demo.rejectAll
                     (Demo.emptyWorld Demo.t0)
    = ((bytes_of_string "hello", Demo.url, None), w') /\
    trace w' = evs /\
    (forall k x, EvPut k x ∉ evs).
Proof.
  destruct (GetWithValidator_fresh_rejected Demo.client (Demo.server "hello")
              Demo.url (fun _ => false) (Demo.emptyWorld Demo.t0) Demo.url
              (bytes_of_string "hello") eq_refl eq_refl)
    as (r & w' & evs & Hcall & Htrace & Hnoput & Hfetch).
  exists w', evs. split; [|split; [exact Htrace|exact Hnoput]].
  unfold Demo.rejectAll. rewrite Hcall. f_equal.
  apply Hfetch.
  assert (Hw : trace w' = trace (snd (GetWithValidator Demo.client
    (Demo.server "hello") Demo.url (Some (fun _ => false))
    (Demo.emptyWorld Demo.t0)))) by (rewrite Hcall; reflexivity).
  rewrite Htrace in Hw. cbn [Demo.emptyWorld trace app] in Hw. rewrite Hw.
  vm_compute. apply list_elem_of_In. right. left. reflexivity.
Defined.

Lemma GetWithValidator_transport_error_witness :
  exists (r : bytes * string * option error) (w' : World),
    GetWithValidator Demo.client Demo.down Demo.url None (Demo.emptyWorld Demo.t0)
    = (r, w') /\
    data (store w') = ∅.
Proof.
  destruct (GetWithValidator_transport_error Demo.client Demo.down Demo.url None
              (Demo.emptyWorld Demo.t0) (NetError "connection refused") eq_refl)
    as (r & w' & evs & Hcall & _ & _ & Hkept & _).
  exists r, w'. split; [exact Hcall|].
  apply map_eq. intros k. rewrite lookup_empty.
  destruct (data (store w') !! k) as [v|] eqn:Hk; [|reflexivity].
  apply Hkept in Hk. cbn in Hk. rewrite lookup_empty in Hk. discriminate.
Defined.

(** C8, as stated, fails: for the URL of [Demo.url] followed by a line
    feed [http.NewRequest] fails, and [Fetch] and [FetchWithFinalURL]
    return its error with no request sent. *)
Lemma Fetch_rejected_url_no_request :
  Fetch Demo.client (Demo.server "hello") Demo.urlLine None Demo.warm
  = (([], Some Demo.invalidControl), Demo.warm) /\
  FetchWithFinalURL Demo.client (Demo.server "hello") Demo.urlLine Demo.warm
  = (([], EmptyString, Some Demo.invalidControl), Demo.warm) /\
  (EvFetch Demo.urlLine
   ∉ trace (snd (Fetch Demo.client (Demo.server "hello") Demo.urlLine None
                   Demo.warm))) /\
  (EvFetch Demo.urlLine
   ∉ trace (snd (FetchWithFinalURL Demo.client (Demo.server "hello")
                   Demo.urlLine Demo.warm))).
Proof.
  assert (Hfetch : Fetch Demo.client (Demo.server "hello") Demo.urlLine None Demo.warm
                   = (([], Some Demo.invalidControl), Demo.warm))
    by (vm_compute; reflexivity).
  assert (Hfinal : FetchWithFinalURL Demo.client (Demo.server "hello") Demo.urlLine
                     Demo.warm
                   = (([], EmptyString, Some Demo.invalidControl), Demo.warm))
    by (vm_compute; reflexivity).
  assert (Hwarm : EvFetch Demo.urlLine ∉ trace Demo.warm).
  { intros Hin. apply list_elem_of_In in Hin. vm_compute in Hin.
    destruct Hin as [Hin|[Hin|[Hin|[]]]]; discriminate Hin. }
  split; [exact Hfetch|]. split; [exact Hfinal|].
  rewrite Hfetch, Hfinal. cbn [snd]. split; exact Hwarm.
Qed.

(** On the store of [Demo.warm], which holds a fresh entry for the
    URL, [Fetch] goes to the network and writes the new body over it. *)
Lemma Fetch_always_network_witness :
  exists w' : World,
    Fetch Demo.client (Demo.server "fresh") Demo.url None Demo.warm
    = ((bytes_of_string "fresh", None), w') /\
    trace w'
    = (trace Demo.warm
         ++ [EvFetch Demo.url; EvPut (hashKey Demo.url) Demo.fetchedValue])%list /\
    data (store w')
    = <[hashKey Demo.url := Demo.fetchedValue]> (data (store Demo.warm)).
Proof.
  destruct (Fetch_always_network Demo.client (Demo.server "fresh") Demo.url None
              Demo.warm)
    as [(r & w' & evs & Hcall & Htrace & _ & _ & _ & Hwrite) _].
  destruct (Hwrite Demo.url (bytes_of_string "fresh") Demo.fetchedValue)
    as (Hr & Hevs & Hdata); try (vm_compute; reflexivity).
  exists w'. rewrite Hcall, Htrace, Hr, Hevs. auto.
Defined.

(** C9, as stated, fails: a client made with no policies, asked for the
    URL of [Demo.url] followed by a line feed, returns the error of
    [http.NewRequest] and fetches nothing. *)
Lemma NewClient_rejected_url_no_fetch :
  NewClient (fun _ => Ok (mkStore ∅ false)) ".httpcache" []
  = Ok (mkClient (mkCache []), mkStore ∅ false) /\
  GetWithValidator (mkClient (mkCache [])) (Demo.server "hello") Demo.urlLine None
                   (Demo.emptyWorld Demo.t0)
  = (([], EmptyString, Some Demo.invalidControl), Demo.emptyWorld Demo.t0) /\
  Get (mkClient (mkCache [])) (Demo.server "hello") Demo.urlLine
      (Demo.emptyWorld Demo.t0)
  = (([], Some Demo.invalidControl), Demo.emptyWorld Demo.t0) /\
  (EvFetch Demo.urlLine
   ∉ trace (snd (Get (mkClient (mkCache [])) (Demo.server "hello") Demo.urlLine
                   (Demo.emptyWorld Demo.t0)))).
Proof.
  assert (Hget : Get (mkClient (mkCache [])) (Demo.server "hello") Demo.urlLine
                     (Demo.emptyWorld Demo.t0)
                 = (([], Some Demo.invalidControl), Demo.emptyWorld Demo.t0))
    by (vm_compute; reflexivity).
  split; [reflexivity|]. split; [vm_compute; reflexivity|].
  split; [exact Hget|]. rewrite Hget. cbn [snd Demo.emptyWorld trace].
  apply not_elem_of_nil.
Qed.

Lemma NewClient_unmatched_bypasses_cache_witness :
  Policies (cache (mkClient (mkCache []))) = [] /\
  GetTTL (mkCache []) Demo.url = 0 /\
  exists r : bytes * string * option error,
    GetWithValidator (mkClient (mkCache [])) (Demo.server "hello") Demo.url None
                     Demo.warm
    = (r, mkWorld (store Demo.warm)
                  (clock Demo.warm + latency (Demo.server "hello") Demo.url)
                  (trace Demo.warm ++ [EvFetch Demo.url])).
Proof.
  destruct (NewClient_unmatched_bypasses_cache
              (fun _ => Ok (mkStore ∅ false)) ".httpcache" []
              (mkClient (mkCache [])) (mkStore ∅ false) Demo.url
              eq_refl (proj2 (Forall_nil _) I)) as (Hpol & Httl & Hcalls).
  split; [exact Hpol|]. split; [exact Httl|].
  destruct (Hcalls (Demo.server "hello") None Demo.warm) as [Hbuilt _].
  destruct (Hbuilt eq_refl) as (r & Hr & _).
  exists r. exact Hr.
Defined.

Lemma GetWithValidator_rejected_then_failed_witness :
  exists (finalURL : string) (w' : World),
    GetWithValidator Demo.client Demo.down Demo.url Demo.rejectAll Demo.warm
    = (([], finalURL, Some (NetError "connection refused")), w') /\
    data (store w') !! hashKey Demo.url = None.
Proof.
  destruct (GetWithValidator_rejected_then_failed Demo.client Demo.down Demo.url
              Demo.rejectAll Demo.warm Demo.value Demo.entry
              (NetError "connection refused"))
    as (f & w' & Hcall & _ & Hgone & _); try (vm_compute; reflexivity).
  exists f, w'. auto.
Defined.

End Runs.


(** ** Filling, refreshing and invalidating the cache *)

Section CacheFlow.
Context `{RegexpLib} `{Codec}.

(** A fetch that delivers an accepted body writes it through, when the
    TTL is positive, the store open and the entry encodes. *)
Lemma fetchFresh_fill tr url key ttl validator (w : World) finalURL body enc :
  respond tr url = Fetched finalURL body ->
  accepts validator body = true ->
  ttl > 0 ->
  closed (store w) = false ->
  ObjectToBytes (mkEntry body url finalURL (clock w + latency tr url)
                         (Add (clock w + latency tr url) ttl)) = Ok enc ->
  fetchFresh tr url key ttl validator w
  = ((body, finalURL, None),
     mkWorld (mkStore (<[key := enc]> (data (store w))) false)
             (clock w + latency tr url)
             (trace w ++ [EvFetch url; EvPut key enc])).
Proof.
  intros Hresp Hacc Httl Hopen Henc.
  destruct w as [[dat cl] now tr0]. cbn [store data closed clock trace] in *. subst cl.
  unfold fetchFresh, fetch, Cache_Set, Store_Put. run.
  rewrite Hresp, Hacc. destruct (Z.gtb_spec ttl 0); [|lia].
  cbn [andb]. run. rewrite Henc. run.
  rewrite <- app_assoc. reflexivity.
Qed.

Lemma GetWithValidator_refill hc tr url validator (w : World)
      (dat1 : gmap string bytes) (pre : list Event) finalURL body enc :
  GetTTL (cache hc) url > 0 ->
  cachedValue hc (hashKey url) (GetTTL (cache hc) url) validator w
  = (None, mkWorld (mkStore dat1 false) (clock w) (trace w ++ pre)) ->
  respond tr url = Fetched finalURL body ->
  accepts validator body = true ->
  ObjectToBytes (mkEntry body url finalURL (clock w + latency tr url)
                         (Add (clock w + latency tr url) (GetTTL (cache hc) url)))
  = Ok enc ->
  GetWithValidator hc tr url validator w
  = ((body, finalURL, None),
     mkWorld (mkStore (<[hashKey url := enc]> dat1) false)
             (clock w + latency tr url)
             (trace w ++ pre ++ [EvFetch url; EvPut (hashKey url) enc])).
Proof.
  intros Httl Hcv Hresp Hacc Henc. unfold GetWithValidator, bind. rewrite Hcv.
  rewrite (fetchFresh_fill tr url (hashKey url) _ validator _ finalURL body enc);
    cbn [store data closed clock trace]; auto.
  rewrite <- app_assoc. reflexivity.
Qed.

(** Filling on a miss.  When the open store has nothing readable under
    the URL's key (no entry, or bytes that do not decode), a fetch that
    delivers an accepted body is written through: the call makes one
    read, one fetch and one [Put], returns the body and the final URL,
    and leaves the new entry under the key, in place of anything that
    was there. *)
Theorem GetWithValidator_miss_fills :
  forall (hc : HTTPClient) (tr : Transport) (url : string)
         (validator : ContentValidator) (w : World) (finalURL : string)
         (body enc : bytes),
    GetTTL (cache hc) url > 0 ->
    closed (store w) = false ->
    unreadable (store w) (hashKey url) ->
    respond tr url = Fetched finalURL body ->
    accepts validator body = true ->
    ObjectToBytes (mkEntry body url finalURL (clock w + latency tr url)
                           (Add (clock w + latency tr url) (GetTTL (cache hc) url)))
    = Ok enc ->
    GetWithValidator hc tr url validator w
    = ((body, finalURL, None),
       mkWorld (mkStore (<[hashKey url := enc]> (data (store w))) false)
               (clock w + latency tr url)
               (trace w ++ [EvGet (hashKey url); EvFetch url;
                            EvPut (hashKey url) enc])).
Proof.
  intros hc tr url validator w finalURL body enc Httl Hopen Hun Hresp Hacc Henc.
  rewrite (GetWithValidator_refill hc tr url validator w (data (store w))
             [EvGet (hashKey url)] finalURL body enc); auto.
  rewrite (cachedValue_miss _ _ _ _ _ Httl Hun).
  destruct w as [[dat cl] now tr0]. cbn in *. subst cl. reflexivity.
Qed.

(** Refreshing after expiry.  When the entry under the URL's key is
    expired, the call deletes it, fetches once, and writes the new body
    under the same key; the data and final URL returned are the fresh
    ones. *)
Theorem GetWithValidator_expired_refetches :
  forall (hc : HTTPClient) (tr : Transport) (url : string)
         (validator : ContentValidator) (w : World) (value : bytes)
         (entry : CacheEntry) (finalURL : string) (body enc : bytes),
    GetTTL (cache hc) url > 0 ->
    closed (store w) = false ->
    data (store w) !! hashKey url = Some value ->
    BytesToObject value = Ok entry ->
    isExpired (cache hc) (clock w) entry = true ->
    respond tr url = Fetched finalURL body ->
    accepts validator body = true ->
    ObjectToBytes (mkEntry body url finalURL (clock w + latency tr url)
                           (Add (clock w + latency tr url) (GetTTL (cache hc) url)))
    = Ok enc ->
    GetWithValidator hc tr url validator w
    = ((body, finalURL, None),
       mkWorld (mkStore (<[hashKey url := enc]> (data (store w))) false)
               (clock w + latency tr url)
               (trace w ++ [EvGet (hashKey url); EvDelete (hashKey url);
                            EvFetch url; EvPut (hashKey url) enc])).
Proof.
  intros hc tr url validator w value entry finalURL body enc
         Httl Hopen Hlook Hdec Hexp Hresp Hacc Henc.
  rewrite (GetWithValidator_refill hc tr url validator w
             (delete (hashKey url) (data (store w)))
             [EvGet (hashKey url); EvDelete (hashKey url)] finalURL body enc); auto.
  - rewrite insert_delete_eq. reflexivity.
  - eapply cachedValue_expired; eassumption.
Qed.

(** Invalidation by the validator.  When the validator rejects the data
    of a fresh cached entry but accepts the body then fetched, the call
    deletes the entry, fetches once and writes the new body under the
    key. *)
Theorem GetWithValidator_rejected_refetches :
  forall (hc : HTTPClient) (tr : Transport) (url : string)
         (validator : ContentValidator) (w : World) (value : bytes)
         (entry : CacheEntry) (finalURL : string) (body enc : bytes),
    GetTTL (cache hc) url > 0 ->
    closed (store w) = false ->
    data (store w) !! hashKey url = Some value ->
    BytesToObject value = Ok entry ->
    isExpired (cache hc) (clock w) entry = false ->
    accepts validator (Data entry) = false ->
    respond tr url = Fetched finalURL body ->
    accepts validator body = true ->
    ObjectToBytes (mkEntry body url finalURL (clock w + latency tr url)
                           (Add (clock w + latency tr url) (GetTTL (cache hc) url)))
    = Ok enc ->
    GetWithValidator hc tr url validator w
    = ((body, finalURL, None),
       mkWorld (mkStore (<[hashKey url := enc]> (data (store w))) false)
               (clock w + latency tr url)
               (trace w ++ [EvGet (hashKey url); EvDelete (hashKey url);
                            EvFetch url; EvPut (hashKey url) enc])).
Proof.
  intros hc tr url validator w value entry finalURL body enc
         Httl Hopen Hlook Hdec Hfresh Hrej Hresp Hacc Henc.
  rewrite (GetWithValidator_refill hc tr url validator w
             (delete (hashKey url) (data (store w)))
             [EvGet (hashKey url); EvDelete (hashKey url)] finalURL body enc); auto.
  - rewrite insert_delete_eq. reflexivity.
  - eapply cachedValue_rejected; eassumption.
Qed.

End CacheFlow.

Section CacheUse.
Context `{RegexpLib} `{Codec}.

(** An entry written at a non-zero instant is fresh as long as the time
    since then does not exceed the TTL of its URL. *)
Lemma isExpired_within_ttl (c : Cache) (later now : Time) dat url finalURL expires :
  now <> 0 ->
  Sub later now <= GetTTL c url ->
  isExpired c later (mkEntry dat url finalURL now expires) = false.
Proof.
  intros Hnz Hsub. unfold isExpired, IsZero. cbn [CrawledAt URL].
  destruct (Z.eqb_spec now 0); [contradiction|]. cbn [negb].
  destruct (Z.gtb_spec (Sub later now) (GetTTL c url)); [lia|reflexivity].
Qed.

Lemma Sub_monotone (t t' u : Time) : t <= t' -> Sub t u <= Sub t' u.
Proof.
  intros Hle. unfold Sub, minDuration, maxDuration.
  destruct (Z.ltb_spec (t - u) (- 2 ^ 63)), (Z.ltb_spec (t' - u) (- 2 ^ 63));
    destruct (t - u >? 2 ^ 63 - 1) eqn:E1, (t' - u >? 2 ^ 63 - 1) eqn:E2; lia.
Qed.

(** The second call is served from the cache.  After a call that
    missed, fetched and wrote the body through, a call for the same URL
    at any instant within the TTL of the write returns the same body
    and final URL from the store, with one read and no fetch, whatever
    the network would now deliver.  The codec is assumed to decode what
    it encoded for this entry. *)
Theorem GetWithValidator_second_call_cached :
  forall (hc : HTTPClient) (tr tr2 : Transport) (url : string)
         (validator : ContentValidator) (w : World) (finalURL : string)
         (body enc : bytes) (later : Time),
    GetTTL (cache hc) url > 0 ->
    closed (store w) = false ->
    unreadable (store w) (hashKey url) ->
    respond tr url = Fetched finalURL body ->
    accepts validator body = true ->
    ObjectToBytes (mkEntry body url finalURL (clock w + latency tr url)
                           (Add (clock w + latency tr url) (GetTTL (cache hc) url)))
    = Ok enc ->
    BytesToObject enc
    = Ok (mkEntry body url finalURL (clock w + latency tr url)
                  (Add (clock w + latency tr url) (GetTTL (cache hc) url))) ->
    clock w + latency tr url <> 0 ->
    Sub later (clock w + latency tr url) <= GetTTL (cache hc) url ->
    forall w1 : World,
      w1 = snd (GetWithValidator hc tr url validator w) ->
      GetWithValidator hc tr2 url validator (mkWorld (store w1) later (trace w1))
      = ((body, finalURL, None),
         mkWorld (store w1) later (trace w1 ++ [EvGet (hashKey url)])).
Proof.
  intros hc tr tr2 url validator w finalURL body enc later
         Httl Hopen Hun Hresp Hacc Henc Hdec Hnz Hwin w1 ->.
  rewrite (GetWithValidator_refill hc tr url validator w (data (store w))
             [EvGet (hashKey url)] finalURL body enc); auto.
  2:{ rewrite (cachedValue_miss _ _ _ _ _ Httl Hun).
      destruct w as [[dat cl] now tr0]. cbn in *. subst cl. reflexivity. }
  cbn [snd store trace].
  match goal with
  | |- GetWithValidator _ _ _ _ ?w1 = _ =>
      rewrite (GetWithValidator_hit hc tr2 url validator w1 enc
                 (mkEntry body url finalURL (clock w + latency tr url)
                          (Add (clock w + latency tr url) (GetTTL (cache hc) url))))
  end;
    cbn [store data closed clock trace Data FinalURL];
    [reflexivity|exact Httl|reflexivity|apply lookup_insert_eq|exact Hdec|
     |exact Hacc].
  apply isExpired_within_ttl; assumption.
Qed.

Lemma Fetch_fill hc tr url validator (w : World) finalURL body enc :
  respond tr url = Fetched finalURL body ->
  accepts validator body = true ->
  GetTTL (cache hc) url > 0 ->
  closed (store w) = false ->
  ObjectToBytes (mkEntry body url EmptyString (clock w + latency tr url)
                         (Add (clock w + latency tr url) (GetTTL (cache hc) url)))
  = Ok enc ->
  Fetch hc tr url validator w
  = ((body, None),
     mkWorld (mkStore (<[hashKey url := enc]> (data (store w))) false)
             (clock w + latency tr url)
             (trace w ++ [EvFetch url; EvPut (hashKey url) enc])).
Proof.
  intros Hresp Hacc Httl Hopen Henc.
  destruct w as [[dat cl] now tr0]. cbn [store data closed clock trace] in *. subst cl.
  unfold Fetch, fetch, Cache_Set, Store_Put. run.
  rewrite Hresp. destruct (Z.gtb_spec (GetTTL (cache hc) url) 0); [|lia].
  rewrite Hacc. run. rewrite Henc. run.
  rewrite <- app_assoc. reflexivity.
Qed.

(** [Fetch] followed by [GetWithFinalURL].  The entry [Fetch] writes
    carries no final URL, so a [GetWithFinalURL] served from it within
    the TTL returns the body with the empty string as final URL, not the
    final URL the transport had observed. *)
Theorem Fetch_then_GetWithFinalURL :
  forall (hc : HTTPClient) (tr tr2 : Transport) (url : string)
         (validator : ContentValidator) (w : World) (finalURL : string)
         (body enc : bytes) (later : Time),
    GetTTL (cache hc) url > 0 ->
    closed (store w) = false ->
    respond tr url = Fetched finalURL body ->
    accepts validator body = true ->
    ObjectToBytes (mkEntry body url EmptyString (clock w + latency tr url)
                           (Add (clock w + latency tr url) (GetTTL (cache hc) url)))
    = Ok enc ->
    BytesToObject enc
    = Ok (mkEntry body url EmptyString (clock w + latency tr url)
                  (Add (clock w + latency tr url) (GetTTL (cache hc) url))) ->
    clock w + latency tr url <> 0 ->
    Sub later (clock w + latency tr url) <= GetTTL (cache hc) url ->
    forall w1 : World,
      w1 = snd (Fetch hc tr url validator w) ->
      GetWithFinalURL hc tr2 url (mkWorld (store w1) later (trace w1))
      = ((body, EmptyString, None),
         mkWorld (store w1) later (trace w1 ++ [EvGet (hashKey url)])).
Proof.
  intros hc tr tr2 url validator w finalURL body enc later
         Httl Hopen Hresp Hacc Henc Hdec Hnz Hwin w1 ->.
  rewrite (Fetch_fill hc tr url validator w finalURL body enc); auto.
  cbn [snd store trace]. unfold GetWithFinalURL.
  match goal with
  | |- GetWithValidator _ _ _ _ ?w1 = _ =>
      rewrite (GetWithValidator_hit hc tr2 url None w1 enc
                 (mkEntry body url EmptyString (clock w + latency tr url)
                          (Add (clock w + latency tr url) (GetTTL (cache hc) url))))
  end;
    cbn [store data closed clock trace Data FinalURL];
    [reflexivity|exact Httl|reflexivity|apply lookup_insert_eq|exact Hdec|
     |reflexivity].
  apply isExpired_within_ttl; assumption.
Qed.

(** Invalidation.  [DeleteURL] removes the entry under the URL's key
    from an open store and touches no other key; on a closed store it
    reports the store's error.  Either way the next call of
    [GetWithValidator] for the URL on the store it leaves is not served
    from the cache, whether or not the entry had expired: it goes to
    the network, or returns the error of [http.NewRequest] when that
    rejects the URL. *)
Theorem DeleteURL_then_fetch :
  forall (url : string) (w : World),
    (closed (store w) = false ->
     DeleteURL url w
     = (None, mkWorld (mkStore (delete (hashKey url) (data (store w))) false)
                      (clock w) (trace w ++ [EvDelete (hashKey url)]))) /\
    (closed (store w) = true ->
     DeleteURL url w
     = (Some StoreClosed,
        mkWorld (store w) (clock w) (trace w ++ [EvDelete (hashKey url)]))) /\
    (forall k, k <> hashKey url ->
               data (store (snd (DeleteURL url w))) !! k = data (store w) !! k) /\
    (forall (hc : HTTPClient) (tr : Transport) (validator : ContentValidator)
            (w2 : World),
        store w2 = store (snd (DeleteURL url w)) ->
        exists r w' evs,
          GetWithValidator hc tr url validator w2 = (r, w') /\
          trace w' = (trace w2 ++ evs)%list /\
          (EvFetch url ∈ evs \/
           exists e, respond tr url = RequestError e /\
                     r = ([], EmptyString, Some e))).
Proof.
  intros url w. destruct w as [[dat cl] now tr0].
  unfold DeleteURL, Cache_Delete, Store_Delete. run.
  destruct cl; run.
  - split; [discriminate|]. split; [reflexivity|]. split; [reflexivity|].
    intros hc tr validator w2 Hst. apply GetWithValidator_fetches.
    right. rewrite Hst. left. reflexivity.
  - split; [reflexivity|]. split; [discriminate|].
    split; [intros k Hk; cbn; apply lookup_delete_ne; congruence|].
    intros hc tr validator w2 Hst. apply GetWithValidator_fetches.
    right. rewrite Hst. apply unreadable_deleted.
Qed.

End CacheUse.

Section CacheFaults.
Context `{RegexpLib} `{Codec}.

(** A closed store never fails a call.  On a store that was closed,
    [GetWithValidator] still goes on to the fetch and returns what it
    gives: the body and final URL with no error when the transport
    delivers, the error otherwise; the request goes out whenever
    [http.NewRequest] accepts the URL; the store is left as it was. *)
Theorem GetWithValidator_closed_store :
  forall (hc : HTTPClient) (tr : Transport) (url : string)
         (validator : ContentValidator) (w : World),
    closed (store w) = true ->
    exists (r : bytes * string * option error) (evs : list Event),
      GetWithValidator hc tr url validator w
      = (r, mkWorld (store w) (clock w + fetchTime tr url) (trace w ++ evs)) /\
      (requestBuilt tr url = true -> EvFetch url ∈ evs) /\
      (requestBuilt tr url = false -> EvFetch url ∉ evs) /\
      (forall finalURL body,
          respond tr url = Fetched finalURL body -> r = (body, finalURL, None)) /\
      (forall err, outcome_error (respond tr url) = Some err -> snd r = Some err).
Proof.
  intros hc tr url validator w Hclosed.
  destruct w as [[dat cl] now tr0]. cbn [store data closed clock trace] in *. subst cl.
  assert (Hin : forall pre post : list Event,
             EvFetch url ∈ (pre ++ EvFetch url :: post)%list).
  { intros pre post. apply elem_of_app. right. apply elem_of_cons. left. reflexivity. }
  assert (Hget : EvFetch url ∉ [EvGet (hashKey url)]).
  { intros Hx. apply list_elem_of_singleton in Hx. discriminate. }
  unfold GetWithValidator, cachedValue, fetchFresh, fetch, Cache_Get, Store_Get,
    Cache_Set, Store_Put, fetchTime, requestBuilt. run.
  destruct (GetTTL (cache hc) url >? 0) eqn:Httl; run;
    destruct (respond tr url) as [e|e|f e|f body] eqn:Hresp; run.
  - exists ([], EmptyString, Some e), [EvGet (hashKey url)].
    rewrite Z.add_0_r. split; [reflexivity|].
    split; [discriminate|]. split; [intros _; exact Hget|].
    split; [discriminate|]. intros err Heq. inversion Heq. reflexivity.
  - eexists _, (_ :: _ :: []). split; [rewrite <- app_assoc; reflexivity|].
    split; [intros _; apply (Hin [_] [])|]. split; [discriminate|].
    split; [discriminate|]. intros err Heq. inversion Heq. reflexivity.
  - eexists _, (_ :: _ :: []). split; [rewrite <- app_assoc; reflexivity|].
    split; [intros _; apply (Hin [_] [])|]. split; [discriminate|].
    split; [discriminate|]. intros err Heq. inversion Heq. reflexivity.
  - destruct (accepts validator body); cbn [andb]; run;
      [destruct (ObjectToBytes _) as [enc|e]; run|].
    + eexists _, (_ :: _ :: _ :: []).
      split; [rewrite <- !app_assoc; reflexivity|].
      split; [intros _; apply (Hin [_] [_])|]. split; [discriminate|].
      split; [intros ? ? Heq; inversion Heq; reflexivity|discriminate].
    + eexists _, (_ :: _ :: []). split; [rewrite <- app_assoc; reflexivity|].
      split; [intros _; apply (Hin [_] [])|]. split; [discriminate|].
      split; [intros ? ? Heq; inversion Heq; reflexivity|discriminate].
    + eexists _, (_ :: _ :: []). split; [rewrite <- app_assoc; reflexivity|].
      split; [intros _; apply (Hin [_] [])|]. split; [discriminate|].
      split; [intros ? ? Heq; inversion Heq; reflexivity|discriminate].
  - exists ([], EmptyString, Some e), [].
    rewrite Z.add_0_r, app_nil_r. split; [reflexivity|].
    split; [discriminate|]. split; [intros _ Hx; inversion Hx|].
    split; [discriminate|]. intros err Heq. inversion Heq. reflexivity.
  - eexists _, [_]. split; [reflexivity|].
    split; [intros _; apply (Hin [] [])|]. split; [discriminate|].
    split; [discriminate|]. intros err Heq. inversion Heq. reflexivity.
  - eexists _, [_]. split; [reflexivity|].
    split; [intros _; apply (Hin [] [])|]. split; [discriminate|].
    split; [discriminate|]. intros err Heq. inversion Heq. reflexivity.
  - rewrite andb_false_r. run.
    eexists _, [_]. split; [reflexivity|].
    split; [intros _; apply (Hin [] [])|]. split; [discriminate|].
    split; [intros ? ? Heq; inversion Heq; reflexivity|discriminate].
Qed.

(** A TTL of zero or less means no caching.  For a URL whose resolved
    TTL is not positive, [GetWithValidator], [Fetch] and
    [FetchWithFinalURL] neither read nor write the store.  When
    [http.NewRequest] accepts the URL they make exactly one call to a
    collaborator, the fetch; when it rejects the URL they make none
    and leave everything as it was. *)
Theorem nonpositive_ttl_bypasses_cache :
  forall (hc : HTTPClient) (tr : Transport) (url : string)
         (validator : ContentValidator) (w : World),
    GetTTL (cache hc) url <= 0 ->
    let w' := mkWorld (store w) (clock w + latency tr url)
                      (trace w ++ [EvFetch url]) in
    (requestBuilt tr url = true ->
     snd (GetWithValidator hc tr url validator w) = w' /\
     snd (Fetch hc tr url validator w) = w' /\
     snd (FetchWithFinalURL hc tr url w) = w') /\
    (requestBuilt tr url = false ->
     snd (GetWithValidator hc tr url validator w) = w /\
     snd (Fetch hc tr url validator w) = w /\
     snd (FetchWithFinalURL hc tr url w) = w).
Proof.
  intros hc tr url validator w Httl.
  destruct w as [[dat cl] now tr0].
  assert (Hgt : (GetTTL (cache hc) url >? 0) = false)
    by (destruct (Z.gtb_spec (GetTTL (cache hc) url) 0); [lia|reflexivity]).
  unfold GetWithValidator, cachedValue, fetchFresh, Fetch, FetchWithFinalURL, fetch,
    requestBuilt.
  rewrite Hgt. run.
  split; intros Hbuilt; (repeat split); destruct (respond tr url); run;
    try discriminate Hbuilt; try reflexivity;
    rewrite andb_false_r; reflexivity.
Qed.

(** Expiry is permanent as long as the policies stay: an entry that is
    expired at some instant is expired at every later instant. *)
Theorem isExpired_monotone :
  forall (c : Cache) (entry : CacheEntry) (now later : Time),
    now <= later ->
    isExpired c now entry = true ->
    isExpired c later entry = true.
Proof.
  intros c entry now later Hle. unfold isExpired, After.
  destruct (negb (IsZero (CrawledAt entry))).
  - pose proof (Sub_monotone now later (CrawledAt entry) Hle) as Hmono.
    destruct (Z.gtb_spec (Sub now (CrawledAt entry)) (GetTTL c (URL entry)));
      [|discriminate].
    destruct (Z.gtb_spec (Sub later (CrawledAt entry)) (GetTTL c (URL entry)));
      [reflexivity|lia].
  - destruct (Z.gtb_spec now (ExpiresAt entry)); [|discriminate].
    destruct (Z.gtb_spec later (ExpiresAt entry)); [reflexivity|lia].
Qed.

(** The inspection tool and the library.  For an entry that
    [Cache.Set] wrote at a non-zero instant [t] with the TTL [ttl], the
    tool's expiry note, which goes by [ExpiresAt], agrees with the
    library's test as long as the policies still give the URL that TTL.
    Once the policies give the URL a shorter TTL, the library treats
    the entry as expired from [t] plus the new TTL on, while the tool
    still reports it as live until [t] plus the old one. *)
Theorem infoExpired_vs_isExpired :
  forall (c : Cache) (dat : bytes) (url finalURL : string) (t now : Time)
         (ttl : Duration),
    t <> 0 ->
    minDuration <= GetTTL c url < maxDuration ->
    (ttl = GetTTL c url ->
     isExpired c now (mkEntry dat url finalURL t (Add t ttl))
     = infoExpired now (mkEntry dat url finalURL t (Add t ttl))) /\
    (t + GetTTL c url < now <= t + ttl ->
     isExpired c now (mkEntry dat url finalURL t (Add t ttl)) = true /\
     infoExpired now (mkEntry dat url finalURL t (Add t ttl)) = false).
Proof.
  intros c dat url finalURL t now ttl Hnz Hrange.
  unfold isExpired, infoExpired, IsZero, After, Add. cbn [CrawledAt URL ExpiresAt].
  destruct (Z.eqb_spec t 0); [contradiction|]. cbn [negb].
  pose proof (Sub_gt_exact now t (GetTTL c url) Hrange) as Hsub.
  split.
  - intros ->.
    destruct (Z.gtb_spec (Sub now t) (GetTTL c url)) as [Hgt|Hle];
      destruct (Z.gtb_spec now (t + GetTTL c url)); try reflexivity.
    + apply Z.lt_gt, Hsub in Hgt. lia.
    + assert (Sub now t > GetTTL c url) by (apply Hsub; lia). lia.
  - intros [Hlo Hhi]. split.
    + destruct (Z.gtb_spec (Sub now t) (GetTTL c url)) as [Hgt|Hle]; [reflexivity|].
      assert (Sub now t > GetTTL c url) by (apply Hsub; lia). lia.
    + destruct (Z.gtb_spec now (t + ttl)); [lia|reflexivity].
Qed.

End CacheFaults.

(** ** More on policy loading *)

Section LoaderFacts.
Context `{Float64} `{RegexpLib}.

Local Notation isPolicyLine :=
  (fun text : string => match splitLine text with
                        | Skipped => false
                        | _ => true
                        end).

Local Notation loadsAs :=
  (fun (text : string) (p : CachePolicy) =>
     exists pattern duration,
       splitLine text = Fields pattern duration /\
       Compile pattern = Ok (Pattern p) /\
       ParseDuration duration = Ok (TTL p)).

Lemma scanPolicies_spec (lines : list string) :
  forall acc policies,
    scanPolicies lines acc = Ok policies ->
    exists extra,
      policies = (acc ++ extra)%list /\
      Forall2 loadsAs (List.filter isPolicyLine lines) extra.
Proof.
  induction lines as [|text lines IH]; intros acc policies Hs; simpl in Hs.
  - inversion Hs; subst. exists []. split; [symmetry; apply app_nil_r|constructor].
  - cbn [List.filter].
    destruct (splitLine text) as [|line|pattern duration] eqn:Hsplit;
      [apply IH; exact Hs|discriminate|].
    destruct (Compile pattern) as [re|e] eqn:Hre; [|discriminate].
    destruct (ParseDuration duration) as [d|e] eqn:Hd; [|discriminate].
    apply IH in Hs. destruct Hs as (extra & -> & Hall).
    exists ({| Pattern := re; TTL := d |} :: extra).
    split; [rewrite <- app_assoc; reflexivity|].
    constructor; [|exact Hall].
    exists pattern, duration. auto.
Qed.

(** What a successful load means.  When loading a file succeeds, the
    scanner reported no error and every scanned line is either skipped
    (blank or comment) or a well-formed policy: the policies loaded
    are, one for each such line and in the order of the lines, the
    compiled pattern and parsed duration of the line, followed by the
    default policy.  So one line without separator, with a pattern that
    does not compile or with a duration that does not parse makes the
    whole load fail. *)
Theorem LoadPoliciesFromFile_ok_lines :
  forall (fs : string -> OpenResult) (filename : string) (lines : list string)
         (scanErr : option error) (policies : list CachePolicy),
    filename <> EmptyString ->
    fs filename = Opened lines scanErr ->
    LoadPoliciesFromFile fs filename = Ok policies ->
    scanErr = None /\
    exists explicit : list CachePolicy,
      policies = (explicit ++ [defaultPolicy])%list /\
      Forall2 (fun text p =>
                 exists pattern duration,
                   splitLine text = Fields pattern duration /\
                   Compile pattern = Ok (Pattern p) /\
                   ParseDuration duration = Ok (TTL p))
              (List.filter (fun text => match splitLine text with
                                        | Skipped => false
                                        | _ => true
                                        end) lines)
              explicit.
Proof.
  intros fs filename lines scanErr policies Hname Hfs. unfold LoadPoliciesFromFile.
  apply String.eqb_neq in Hname. rewrite Hname, Hfs.
  destruct (scanPolicies lines []) as [ps|e] eqn:Hs; [|discriminate].
  destruct scanErr; [discriminate|]. intros Hok. inversion Hok; subst.
  split; [reflexivity|].
  apply scanPolicies_spec in Hs. destruct Hs as (extra & -> & Hall).
  exists extra. split; [reflexivity|exact Hall].
Qed.

Lemma int64_range (x : Z) : minDuration <= int64 x <= maxDuration.
Proof.
  unfold int64, minDuration, maxDuration.
  pose proof (Z.mod_pos_bound (x + 2 ^ 63) (2 ^ 64) ltac:(lia)). lia.
Qed.

Lemma ParseDuration_range (s : string) (d : Duration) :
  ParseDuration s = Ok d -> minDuration <= d <= maxDuration.
Proof.
  unfold ParseDuration.
  destruct (match s with
            | String c s' => _
            | EmptyString => _
            end) as [neg s1].
  destruct (String.eqb s1 "0").
  - intros Hok. inversion Hok. unfold minDuration, maxDuration. lia.
  - destruct (String.eqb s1 EmptyString); [discriminate|].
    destruct (parseLoop _ _ _ _) as [[d0|e]|]; try discriminate.
    destruct neg.
    + intros Hok. inversion Hok. apply int64_range.
    + destruct (d0 >? 2 ^ 63 - 1); [discriminate|].
      intros Hok. inversion Hok. apply int64_range.
Qed.

(** Every TTL that loading produces is a [Duration]: it lies between
    the least and the largest 64-bit count of nanoseconds, also for a
    duration text with a sign or with several terms. *)
Theorem LoadPoliciesFromFile_ttl_range :
  forall (fs : string -> OpenResult) (filename : string)
         (policies : list CachePolicy),
    LoadPoliciesFromFile fs filename = Ok policies ->
    Forall (fun p => minDuration <= TTL p <= maxDuration) policies.
Proof.
  intros fs filename policies.
  assert (Hdef : minDuration <= TTL defaultPolicy <= maxDuration).
  { cbn. unfold minDuration, maxDuration, Minute, Second, Millisecond,
      Microsecond, Nanosecond. lia. }
  unfold LoadPoliciesFromFile.
  destruct (String.eqb filename EmptyString).
  - intros Hok. inversion Hok. constructor; [exact Hdef|constructor].
  - destruct (fs filename) as [|e|lines scanErr].
    + intros Hok. inversion Hok. constructor; [exact Hdef|constructor].
    + discriminate.
    + destruct (scanPolicies lines []) as [ps|e] eqn:Hs; [|discriminate].
      destruct scanErr; [discriminate|]. intros Hok. inversion Hok; subst.
      apply scanPolicies_spec in Hs. destruct Hs as (extra & -> & Hall).
      apply Forall_app. split; [|constructor; [exact Hdef|constructor]].
      cbn [app]. clear -Hall.
      induction Hall as [|text p ls ps (pattern & duration & _ & _ & Hd) _ IH];
        constructor; [eapply ParseDuration_range; exact Hd|exact IH].
Qed.

Lemma isDigit_not (c d : ascii) :
  isDigit c = true -> isDigit d = false -> Ascii.eqb c d = false.
Proof.
  intros Hc Hd. destruct (Ascii.eqb_spec c d); [congruence|reflexivity].
Qed.

Lemma leadingInt_digits (s : string) :
  forall x v r,
    forallb isDigit (list_ascii_of_string s) = true ->
    leadingInt s x = Some (v, r) -> r = EmptyString.
Proof.
  induction s as [|c s IH]; intros x v r Hall Hl; simpl in *.
  - inversion Hl. reflexivity.
  - apply andb_true_iff in Hall. destruct Hall as [Hc Hs]. rewrite Hc in Hl.
    destruct (x >? 2 ^ 63 / 10); [discriminate|].
    destruct (uint64 (x * 10 + digitVal c) >? 2 ^ 63); [discriminate|].
    eapply IH; eassumption.
Qed.

(** A number without a unit is no duration, except for the text [0]. *)
Lemma ParseDuration_digits (s : string) (d : Duration) :
  forallb isDigit (list_ascii_of_string s) = true ->
  ParseDuration s = Ok d -> s = "0".
Proof.
  intros Hall. unfold ParseDuration.
  destruct s as [|c s']; [discriminate|].
  pose proof Hall as Hall'. cbn [list_ascii_of_string forallb] in Hall'.
  apply andb_true_iff in Hall'. destruct Hall' as [Hc Hs'].
  rewrite (isDigit_not c "-" Hc eq_refl), (isDigit_not c "+" Hc eq_refl).
  cbn [orb]. destruct (String.eqb_spec (String c s') "0") as [Heq|Hne]; [auto|].
  cbn [String.eqb String.length parseLoop].
  unfold parseTerm. rewrite (isDigit_not c "." Hc eq_refl), Hc. cbn [orb negb].
  destruct (leadingInt (String c s') 0) as [[v s1]|] eqn:Hint; [|discriminate].
  apply leadingInt_digits in Hint; [|exact Hall]. subst s1. discriminate.
Qed.

(** Durations need a unit.  In a file that loads, no policy line has a
    duration field made of digits only, except the field [0]: a line
    such as [pattern=600] makes the load fail. *)
Theorem LoadPoliciesFromFile_unitless_rejected :
  forall (fs : string -> OpenResult) (filename : string) (lines : list string)
         (scanErr : option error) (policies : list CachePolicy)
         (text pattern duration : string),
    filename <> EmptyString ->
    fs filename = Opened lines scanErr ->
    LoadPoliciesFromFile fs filename = Ok policies ->
    In text lines ->
    splitLine text = Fields pattern duration ->
    forallb isDigit (list_ascii_of_string duration) = true ->
    duration = "0".
Proof.
  intros fs filename lines scanErr policies text pattern duration
         Hname Hfs Hload Hin Hsplit Hdigits.
  unfold LoadPoliciesFromFile in Hload.
  apply String.eqb_neq in Hname. rewrite Hname, Hfs in Hload.
  destruct (scanPolicies lines []) as [ps|e] eqn:Hs; [|discriminate].
  apply scanPolicies_spec in Hs. destruct Hs as (extra & _ & Hall).
  assert (Hmem : In text (List.filter isPolicyLine lines)).
  { apply filter_In. split; [exact Hin|]. rewrite Hsplit. reflexivity. }
  clear -Hall Hmem Hsplit Hdigits.
  induction Hall as [|t p ls ps (pat & dur & Hsp & _ & Hd) _ IH]; [inversion Hmem|].
  destruct Hmem as [->|Hmem]; [|apply IH; exact Hmem].
  rewrite Hsplit in Hsp. inversion Hsp; subst.
  eapply ParseDuration_digits; eassumption.
Qed.

End LoaderFacts.

(** ** The cache key *)

Lemma be_bytes_range (k : nat) (x : Z) :
  Forall (fun b => 0 <= b < 256) (Sha256.be_bytes k x).
Proof.
  induction k as [|k IH]; cbn [Sha256.be_bytes]; constructor; [|exact IH].
  change 255 with (Z.ones 8). rewrite Z.land_ones by lia.
  apply Z.mod_pos_bound. lia.
Qed.

Lemma be_bytes_length (k : nat) (x : Z) : length (Sha256.be_bytes k x) = k.
Proof. induction k as [|k IH]; cbn [Sha256.be_bytes length]; congruence. Qed.

Lemma Sum256_shape (msg : list Z) :
  length (Sha256.Sum256 msg) = 32%nat /\
  Forall (fun b => 0 <= b < 256) (Sha256.Sum256 msg).
Proof.
  unfold Sha256.Sum256.
  destruct (Sha256.blocks _ _ _) as [a b c d e f g h].
  cbn [flat_map]. split.
  - rewrite !length_app, !be_bytes_length. reflexivity.
  - repeat (apply Forall_app; split); try apply be_bytes_range. constructor.
Qed.

Lemma hex_digit_in (n : Z) :
  0 <= n < 16 -> In (Hex.digit n) (list_ascii_of_string Hex.hextable).
Proof.
  intros Hn. unfold Hex.digit.
  remember (Z.to_nat n) as m eqn:Hm.
  assert (Hlt : (m < 16)%nat) by lia. clear Hm Hn.
  do 16 (destruct m as [|m]; [cbn; tauto|]). lia.
Qed.

Lemma EncodeToString_shape (src : list Z) :
  Forall (fun b => 0 <= b < 256) src ->
  String.length (Hex.EncodeToString src) = (2 * length src)%nat /\
  Forall (fun c => In c (list_ascii_of_string Hex.hextable))
         (list_ascii_of_string (Hex.EncodeToString src)).
Proof.
  induction 1 as [|b src Hb _ [IHlen IHall]]; cbn [Hex.EncodeToString].
  - split; [reflexivity|constructor].
  - split.
    + cbn [String.length length]. rewrite IHlen. lia.
    + cbn [list_ascii_of_string]. constructor; [|constructor; [|exact IHall]].
      * apply hex_digit_in. rewrite Z.shiftr_div_pow2 by lia.
        change (2 ^ 4) with 16. split; [apply Z.div_pos; lia|].
        apply Z.div_lt_upper_bound; lia.
      * apply hex_digit_in. change 15 with (Z.ones 4). rewrite Z.land_ones by lia.
        apply Z.mod_pos_bound. lia.
Qed.

Section KeyFacts.
Context `{RegexpLib} `{Codec}.

(** The key of every URL, the empty one and any byte string included,
    is a string of exactly 64 characters, each a lower-case hexadecimal
    digit. *)
Theorem hashKey_shape :
  forall url : string,
    String.length (hashKey url) = 64%nat /\
    Forall (fun c => In c (list_ascii_of_string "0123456789abcdef"))
           (list_ascii_of_string (hashKey url)).
Proof.
  intros url. unfold hashKey.
  destruct (Sum256_shape (bytes_of_string url)) as [Hlen Hrange].
  destruct (EncodeToString_shape _ Hrange) as [Hl Hall].
  split; [rewrite Hl, Hlen; reflexivity|exact Hall].
Qed.

End KeyFacts.

(** ** The singleton *)

Section LifecycleFacts.
Context `{Float64} `{RegexpLib}.

(** One initialisation.  Once [GetClient] has returned a client, every
    further call returns that same client and changes nothing: the
    flags, the policy file and the store directory are not looked at
    again. *)
Theorem GetClient_once :
  forall (flags : Flags) (fs : string -> OpenResult)
         (newLevelStore : string -> result LevelStore) (g : Globals) (w : World)
         (hc : HTTPClient) (g' : Globals) (w' : World),
    GetClient flags fs newLevelStore g w = Returned (hc, g', w') ->
    instance g' = Some hc /\
    once_done g' = true /\
    forall (flags2 : Flags) (fs2 : string -> OpenResult)
           (newLevelStore2 : string -> result LevelStore) (w2 : World),
      GetClient flags2 fs2 newLevelStore2 g' w2 = Returned (hc, g', w2).
Proof.
  intros flags fs newLevelStore g w hc g' w' Hget.
  assert (Hg : instance g' = Some hc /\ once_done g' = true).
  { unfold GetClient in Hget. destruct (once_done g) eqn:Hdone.
    - destruct (instance g) eqn:Hi; inversion Hget; subst. auto.
    - destruct (LoadPoliciesFromFile _ _); [|discriminate].
      destruct (newLevelStore _); [|discriminate].
      cbn in Hget. inversion Hget; subst. auto. }
  destruct Hg as [Hi Hd]. split; [exact Hi|]. split; [exact Hd|].
  intros flags2 fs2 newLevelStore2 w2. unfold GetClient. rewrite Hd, Hi. reflexivity.
Qed.

(** Closing and starting again.  [Close] closes the store and resets
    the singleton, so the next [GetClient] initialises afresh: with a
    policy file that loads and a store that opens, it returns a client
    with the policies as the file now has them, on the newly opened
    store; it does not end in the fatal error for a missing
    instance. *)
Theorem Close_then_GetClient :
  forall (g : Globals) (w : World) (flags : Flags) (fs : string -> OpenResult)
         (newLevelStore : string -> result LevelStore)
         (policies : list CachePolicy) (st : LevelStore),
    LoadPoliciesFromFile fs (policiesFile flags) = Ok policies ->
    newLevelStore (String.append (cacheDir flags) "/data") = Ok st ->
    closed (store (snd (Close g w))) = true /\
    data (store (snd (Close g w))) = data (store w) /\
    GetClient flags fs newLevelStore (fst (Close g w)) (snd (Close g w))
    = Returned (mkClient (mkCache policies),
                mkGlobals (Some (mkClient (mkCache policies))) true,
                mkWorld st (clock w) (trace w)).
Proof.
  intros g w flags fs newLevelStore policies st Hload Hstore.
  destruct w as [[dat cl] now tr0].
  unfold Close, Store_Close. run.
  destruct cl; run; unfold GetClient; cbn [once_done fst snd];
    rewrite Hload, Hstore; cbn; auto.
Qed.

End LifecycleFacts.

(** ** The fields of a policy line *)

Section LineFacts.

Local Notation chars := list_ascii_of_string.

Lemma HasPrefix_nil (s : string) : GoStrings.HasPrefix s EmptyString = true.
Proof. destruct s; reflexivity. Qed.

Lemma HasPrefix_char (a c : ascii) (s : string) :
  GoStrings.HasPrefix (String a s) (String c EmptyString) = Ascii.eqb a c.
Proof.
  cbn [GoStrings.HasPrefix]. rewrite HasPrefix_nil. destruct (Ascii.eqb a c); reflexivity.
Qed.

Lemma HasPrefix_char_nil (c : ascii) :
  GoStrings.HasPrefix EmptyString (String c EmptyString) = false.
Proof. reflexivity. Qed.

(** The first occurrence: nothing before it. *)
Lemma indexFrom_char (s : string) (c : ascii) :
  forall i,
    (GoStrings.indexFrom s (String c EmptyString) i = -1 /\ ~ In c (chars s)) \/
    (exists n : nat,
        GoStrings.indexFrom s (String c EmptyString) i = i + Z.of_nat n /\
        ~ In c (chars (GoStrings.take n s))).
Proof.
  induction s as [|a s IH]; intros i.
  - left. cbn. auto.
  - cbn [GoStrings.indexFrom]. rewrite HasPrefix_char.
    destruct (Ascii.eqb_spec a c) as [->|Hne].
    + right. exists 0%nat. split; [lia|]. cbn. auto.
    + destruct (IH (i + 1)) as [[Hr Hnot] | (n & Hr & Hnot)].
      * left. split; [exact Hr|]. cbn. intros [Heq|Hin]; [congruence|auto].
      * right. exists (S n). split; [lia|].
        cbn. intros [Heq|Hin]; [congruence|auto].
Qed.

(** The last occurrence: nothing after it. *)
Lemma lastIndexFrom_char (s : string) (c : ascii) :
  forall i best,
    (GoStrings.lastIndexFrom s (String c EmptyString) i best = best /\
     ~ In c (chars s)) \/
    (exists n : nat,
        GoStrings.lastIndexFrom s (String c EmptyString) i best = i + Z.of_nat n /\
        ~ In c (chars (GoStrings.drop (S n) s))).
Proof.
  induction s as [|a s IH]; intros i best.
  - left. cbn. auto.
  - cbn [GoStrings.lastIndexFrom]. rewrite HasPrefix_char.
    destruct (Ascii.eqb_spec a c) as [->|Hne].
    + destruct (IH (i + 1) i) as [[Hr Hnot] | (n & Hr & Hnot)].
      * right. exists 0%nat. split; [lia|]. cbn. exact Hnot.
      * right. exists (S n). split; [lia|]. exact Hnot.
    + destruct (IH (i + 1) best) as [[Hr Hnot] | (n & Hr & Hnot)].
      * left. split; [exact Hr|]. cbn. intros [Heq|Hin]; [congruence|auto].
      * right. exists (S n). split; [lia|]. exact Hnot.
Qed.

Lemma in_take (c : ascii) (n : nat) :
  forall s, In c (chars (GoStrings.take n s)) -> In c (chars s).
Proof.
  induction n as [|n IH]; intros s Hin; [destruct s; inversion Hin|].
  destruct s as [|a s]; [inversion Hin|].
  cbn in *. destruct Hin as [Heq|Hin]; [auto|right; apply IH; exact Hin].
Qed.

Lemma in_drop (c : ascii) (n : nat) :
  forall s, In c (chars (GoStrings.drop n s)) -> In c (chars s).
Proof.
  induction n as [|n IH]; intros s Hin; [destruct s; exact Hin|].
  destruct s as [|a s]; [exact Hin|].
  cbn in *. right. apply IH. exact Hin.
Qed.

Lemma in_rev_acc (c : ascii) (s : string) :
  forall acc, In c (chars (GoStrings.rev_acc s acc)) <-> In c (chars s) \/ In c (chars acc).
Proof.
  induction s as [|a s IH]; intros acc; cbn [GoStrings.rev_acc].
  - cbn. tauto.
  - rewrite IH. cbn. tauto.
Qed.

Lemma in_rev (c : ascii) (s : string) :
  In c (chars (GoStrings.rev s)) <-> In c (chars s).
Proof. unfold GoStrings.rev. rewrite in_rev_acc. cbn. tauto. Qed.

Lemma in_trimLeftSpaces (c : ascii) (runes : list string) (fuel : nat) :
  forall s, In c (chars (GoStrings.trimLeftSpaces fuel runes s)) -> In c (chars s).
Proof.
  induction fuel as [|fuel IH]; intros s Hin; cbn [GoStrings.trimLeftSpaces] in Hin.
  - exact Hin.
  - destruct (GoStrings.leadingSpace runes s) as [n|]; [|exact Hin].
    apply IH in Hin. eapply in_drop. exact Hin.
Qed.

(** Trimming only removes bytes. *)
Lemma in_TrimSpace (c : ascii) (s : string) :
  In c (chars (GoStrings.TrimSpace s)) -> In c (chars s).
Proof.
  unfold GoStrings.TrimSpace, GoStrings.TrimRightSpace, GoStrings.TrimLeftSpace.
  intros Hin. apply (proj1 (in_rev _ _)) in Hin. apply in_trimLeftSpaces in Hin.
  apply (proj1 (in_rev _ _)) in Hin. apply in_trimLeftSpaces in Hin. exact Hin.
Qed.

Lemma Index_absent (s : string) (c : ascii) :
  ~ In c (chars s) -> GoStrings.Index s (String c EmptyString) = -1.
Proof.
  unfold GoStrings.Index. generalize 0.
  induction s as [|a s IH]; intros i Hnot; cbn [GoStrings.indexFrom].
  - reflexivity.
  - rewrite HasPrefix_char. destruct (Ascii.eqb_spec a c) as [->|Hne].
    + exfalso. apply Hnot. cbn. auto.
    + apply IH. intros Hin. apply Hnot. cbn. auto.
Qed.

(** The fields of a policy line.  In every line the loader takes as a
    policy, neither the pattern nor the duration contains the comment
    character, and the duration contains no equals sign: a pattern
    cannot contain [#], and of several [=] the last one separates. *)
Theorem splitLine_fields :
  forall text pattern duration : string,
    splitLine text = Fields pattern duration ->
    GoStrings.Index pattern "#" = -1 /\
    GoStrings.Index duration "#" = -1 /\
    GoStrings.Index duration "=" = -1.
Proof.
  intros text pattern duration. unfold splitLine.
  set (line1 := GoStrings.TrimSpace text).
  destruct (String.eqb line1 EmptyString || GoStrings.HasPrefix line1 "#");
    [discriminate|].
  set (line2 := if negb (GoStrings.Index line1 "#" =? -1)
                then GoStrings.TrimSpace
                       (GoStrings.slice_to line1 (GoStrings.Index line1 "#"))
                else line1).
  assert (Hclean : ~ In "#"%char (chars line2)).
  { subst line2. unfold GoStrings.Index, GoStrings.slice_to.
    destruct (indexFrom_char line1 "#" 0) as [[Hr Hnot] | (n & Hr & Hnot)].
    - rewrite Hr. cbn. exact Hnot.
    - rewrite Hr. destruct (Z.eqb_spec (0 + Z.of_nat n) (-1)); [lia|].
      cbn [negb]. intros Hin. apply in_TrimSpace in Hin.
      replace (Z.to_nat (0 + Z.of_nat n)) with n in Hin by lia. auto. }
  destruct (Z.eqb_spec (GoStrings.LastIndex line2 "=") (-1)) as [|Hidx];
    [discriminate|].
  intros Hf. inversion Hf; subst pattern duration. clear Hf.
  split; [|split]; apply Index_absent; intros Hin; apply in_TrimSpace in Hin.
  - apply Hclean. eapply in_take. exact Hin.
  - apply Hclean. eapply in_drop. exact Hin.
  - unfold GoStrings.LastIndex, GoStrings.slice_from in *.
    destruct (lastIndexFrom_char line2 "=" 0 (-1)) as [[Hr Hnot] | (n & Hr & Hnot)];
      [congruence|].
    rewrite Hr in Hin.
    replace (Z.to_nat (0 + Z.of_nat n + 1)) with (S n) in Hin by lia. auto.
Qed.

End LineFacts.

(** ** Further runs on the concrete collaborators *)

Section MoreRuns.
#[local] Existing Instances Demo.regexpLib Demo.float64 Demo.codec.


Lemma LoadPoliciesFromFile_ok_lines_witness :
  exists explicit : list CachePolicy,
    Demo.policies = (explicit ++ [defaultPolicy])%list /\ length explicit = 2%nat.
Proof.
  destruct (LoadPoliciesFromFile_ok_lines Demo.fs "policies.txt" Demo.policyLines
              None Demo.policies)
    as (_ & explicit & Heq & Hall); [discriminate|reflexivity|vm_compute; reflexivity|].
  exists explicit. split; [exact Heq|].
  apply Forall2_length in Hall. rewrite <- Hall. vm_compute. reflexivity.
Defined.

Lemma LoadPoliciesFromFile_ttl_range_witness :
  Forall (fun p => minDuration <= TTL p <= maxDuration) Demo.policies.
Proof.
  apply (LoadPoliciesFromFile_ttl_range Demo.fs "policies.txt" Demo.policies).
  vm_compute. reflexivity.
Defined.

Lemma LoadPoliciesFromFile_unitless_rejected_witness :
  forallb isDigit (list_ascii_of_string "0") = true /\ "0" = "0".
Proof.
  split; [reflexivity|].
  apply (LoadPoliciesFromFile_unitless_rejected
           (fun _ => Opened ["# no caching"; ".*=0"] None) "policies.txt"
           ["# no caching"; ".*=0"] None
           [mkPolicy catchAll 0; defaultPolicy] ".*=0" ".*" "0").
  - discriminate.
  - reflexivity.
  - vm_compute. reflexivity.
  - right. left. reflexivity.
  - vm_compute. reflexivity.
  - reflexivity.
Defined.

Lemma splitLine_fields_witness :
  splitLine "  a=b=1h30m  # until # later" = Fields "a=b" "1h30m" /\
  GoStrings.Index "1h30m" "=" = -1.
Proof.
  split; [vm_compute; reflexivity|].
  refine (proj2 (proj2 (splitLine_fields "  a=b=1h30m  # until # later" "a=b" "1h30m" _))).
  vm_compute. reflexivity.
Defined.

Lemma Demo_empty_unreadable (now : Time) (key : string) :
  unreadable (store (Demo.emptyWorld now)) key.
Proof. right. left. reflexivity. Qed.

Lemma GetWithValidator_miss_fills_witness :
  exists w' : World,
    GetWithValidator Demo.client (Demo.server "hello") Demo.url None
                     (Demo.emptyWorld Demo.t0)
    = ((bytes_of_string "hello", Demo.url, None), w') /\
    data (store w') !! hashKey Demo.url = Some Demo.value.
Proof.
  eexists. split.
  - refine (GetWithValidator_miss_fills Demo.client (Demo.server "hello") Demo.url
              None (Demo.emptyWorld Demo.t0) Demo.url (bytes_of_string "hello")
              Demo.value _ _ (Demo_empty_unreadable _ _) _ _ _);
      vm_compute; reflexivity.
  - apply lookup_insert_eq.
Defined.

(** Ten minutes later the entry of [Demo.warm], cached for five, is expired. *)
Lemma GetWithValidator_expired_refetches_witness :
  exists (enc : bytes) (w' : World),
    GetWithValidator Demo.client (Demo.server "news") Demo.url None
                     (mkWorld (store Demo.warm) (Demo.t0 + 10 * Minute)
                              (trace Demo.warm))
    = ((bytes_of_string "news", Demo.url, None), w') /\
    data (store w') !! hashKey Demo.url = Some enc /\ enc <> Demo.value.
Proof.
  eexists _, _. split; [|split].
  - refine (GetWithValidator_expired_refetches Demo.client (Demo.server "news")
              Demo.url None _ Demo.value Demo.entry Demo.url (bytes_of_string "news")
              _ _ _ _ _ _ _ _ _); vm_compute; reflexivity.
  - apply lookup_insert_eq.
  - vm_compute. discriminate.
Defined.

Lemma GetWithValidator_rejected_refetches_witness :
  exists w' : World,
    GetWithValidator Demo.client (Demo.server "new") Demo.url
                     (Some (fun b => (length b =? 3)%nat)) Demo.warm
    = ((bytes_of_string "new", Demo.url, None), w').
Proof.
  eexists.
  refine (GetWithValidator_rejected_refetches Demo.client (Demo.server "new")
            Demo.url (Some (fun b => (length b =? 3)%nat)) Demo.warm Demo.value
            Demo.entry Demo.url (bytes_of_string "new")
            _ _ _ _ _ _ _ _ _ _); vm_compute; reflexivity.
Defined.

Lemma GetWithValidator_second_call_cached_witness :
  exists w' : World,
    GetWithValidator Demo.client Demo.down Demo.url None
      (mkWorld (store Demo.warm) (Demo.t0 + 4 * Minute) (trace Demo.warm))
    = ((bytes_of_string "hello", Demo.url, None), w').
Proof.
  eexists.
  refine (GetWithValidator_second_call_cached Demo.client (Demo.server "hello")
            Demo.down Demo.url None (Demo.emptyWorld Demo.t0) Demo.url
            (bytes_of_string "hello") Demo.value (Demo.t0 + 4 * Minute)
            _ _ (Demo_empty_unreadable _ _) _ _ _ _ _ _ Demo.warm _);
    try (vm_compute; reflexivity).
  - vm_compute. discriminate.
  - vm_compute. discriminate.
Defined.

Lemma Fetch_then_GetWithFinalURL_witness :
  exists w' : World,
    GetWithFinalURL Demo.client Demo.down Demo.url
      (mkWorld (store (snd (Fetch Demo.client (Demo.server "hello") Demo.url None
                                  (Demo.emptyWorld Demo.t0))))
               (Demo.t0 + 4 * Minute)
               (trace (snd (Fetch Demo.client (Demo.server "hello") Demo.url None
                                  (Demo.emptyWorld Demo.t0)))))
    = ((bytes_of_string "hello", EmptyString, None), w').
Proof.
  eexists.
  refine (Fetch_then_GetWithFinalURL Demo.client (Demo.server "hello") Demo.down
            Demo.url None (Demo.emptyWorld Demo.t0) Demo.url
            (bytes_of_string "hello") _ (Demo.t0 + 4 * Minute)
            _ _ _ _ _ _ _ _ _ eq_refl);
    try (vm_compute; reflexivity).
  - vm_compute. discriminate.
  - vm_compute. discriminate.
Defined.

Lemma GetWithValidator_closed_store_witness :
  exists (w' : World),
    GetWithValidator Demo.client (Demo.server "hello") Demo.url None
      (mkWorld (mkStore (data (store Demo.warm)) true) Demo.t0 [])
    = ((bytes_of_string "hello", Demo.url, None), w') /\
    EvFetch Demo.url ∈ trace w'.
Proof.
  destruct (GetWithValidator_closed_store Demo.client (Demo.server "hello")
              Demo.url None
              (mkWorld (mkStore (data (store Demo.warm)) true) Demo.t0 []) eq_refl)
    as (r & evs & Hcall & Hsent & _ & Hok & _).
  eexists. rewrite Hcall. split.
  - f_equal. apply Hok. reflexivity.
  - cbn [trace app]. apply Hsent. reflexivity.
Defined.

Lemma nonpositive_ttl_bypasses_cache_witness :
  trace (snd (GetWithValidator (mkClient (mkCache [mkPolicy catchAll 0]))
                               (Demo.server "hello") Demo.url None Demo.warm))
  = (trace Demo.warm ++ [EvFetch Demo.url])%list.
Proof.
  assert (Httl : GetTTL (cache (mkClient (mkCache [mkPolicy catchAll 0]))) Demo.url <= 0)
    by (vm_compute; discriminate).
  rewrite (proj1 (proj1 (nonpositive_ttl_bypasses_cache
                           (mkClient (mkCache [mkPolicy catchAll 0]))
                           (Demo.server "hello") Demo.url None Demo.warm Httl)
                        eq_refl)).
  reflexivity.
Defined.

Lemma isExpired_monotone_witness :
  isExpired (cache Demo.client) (Demo.t0 + 1 * Hour) Demo.entry = true.
Proof.
  apply (isExpired_monotone (cache Demo.client) Demo.entry (Demo.t0 + 10 * Minute)
           (Demo.t0 + 1 * Hour)).
  - vm_compute. discriminate.
  - vm_compute. reflexivity.
Defined.

Lemma infoExpired_vs_isExpired_witness :
  isExpired (cache Demo.client) (Demo.t0 + 10 * Minute) Demo.entry
  = infoExpired (Demo.t0 + 10 * Minute) Demo.entry.
Proof.
  refine (proj1 (infoExpired_vs_isExpired (cache Demo.client)
                   (bytes_of_string "hello") Demo.url Demo.url
                   (Demo.t0 + 20 * Millisecond) (Demo.t0 + 10 * Minute)
                   (5 * Minute) _ _) _).
  - vm_compute. discriminate.
  - vm_compute. split; [discriminate|reflexivity].
  - vm_compute. reflexivity.
Defined.

Lemma GetClient_once_witness :
  GetClient (mkFlags ".other" "missing.txt") (fun _ => NotExist)
            (fun _ => Err StoreClosed)
            (mkGlobals (Some Demo.client) true) Demo.warm
  = Returned (Demo.client, mkGlobals (Some Demo.client) true, Demo.warm).
Proof.
  refine (proj2 (proj2 (GetClient_once (mkFlags ".httpcache" "policies.txt") Demo.fs
            (fun _ => Ok (mkStore ∅ false)) (mkGlobals None false)
            (Demo.emptyWorld Demo.t0) Demo.client
            (mkGlobals (Some Demo.client) true) (Demo.emptyWorld Demo.t0) _))
            (mkFlags ".other" "missing.txt") (fun _ => NotExist)
            (fun _ => Err StoreClosed) Demo.warm).
  vm_compute. reflexivity.
Defined.

Lemma Close_then_GetClient_witness :
  GetClient (mkFlags ".httpcache" "policies.txt") Demo.fs
            (fun _ => Ok (mkStore ∅ false))
            (fst (Close (mkGlobals (Some (mkClient (mkCache []))) true) Demo.warm))
            (snd (Close (mkGlobals (Some (mkClient (mkCache []))) true) Demo.warm))
  = Returned (Demo.client, mkGlobals (Some Demo.client) true,
              mkWorld (mkStore ∅ false) (clock Demo.warm) (trace Demo.warm)).
Proof.
  refine (proj2 (proj2 (Close_then_GetClient
            (mkGlobals (Some (mkClient (mkCache []))) true) Demo.warm
            (mkFlags ".httpcache" "policies.txt") Demo.fs
            (fun _ => Ok (mkStore ∅ false)) Demo.policies (mkStore ∅ false) _ _))).
  - vm_compute. reflexivity.
  - reflexivity.
Defined.

End MoreRuns.
